(** * helius-rpc-proxy: a shallow embedding of [src/index.ts]

    The worker's [fetch] handler (CORS negotiation, allow-list gate, windowed
    rate limiter) and its dispatcher [handleRequest] are embedded as Rocq
    functions over an explicit world: the KV namespace, whose entries carry
    their expiry time, and the log of the effects performed.

    Conventions of the embedding.
    - JavaScript strings are [string] (code units 0..255).
    - The numbers that the program manipulates are integer valued: [number]
      has the finite integers, the two infinities and NaN; [-0] is identified
      with [0] (both are falsy and both print as "0").  Results of [parseInt]
      and of the arithmetic are rounded to binary64 by [round_double].
    - [null] and [undefined] are [None].
    - One request is handled at one instant [now] of the clock, the value of
      [Date.now()] in milliseconds.  The upstream is a function from the
      outbound request to its response, or to the error with which the
      platform's [fetch] fails.
    - A computation ends in a value or in a thrown error ([Result]); the
      effects performed before a throw stay in the world.
    - The inbound [new URL(request.url)] is given by the three fields that
      the program destructures from it.  Header names and values are those
      that the platform accepts.
    - The KV namespace is read and written by this worker only; its
      operations succeed, and a value is live until its time-to-live has
      passed.
    - The platform's constructors follow the URL and Fetch standards:
      [URL_parse] on the fragment of https URLs described there,
      [Request_new] and [Response_new] with the checks that make them throw.
    - [new RegExp] is modelled on the fragment described in [RegExp].
    - A computation that leaves one of the modelled fragments has no result
      ([None]). *)

From Stdlib Require Import ZArith QArith Qround Lia Ascii String List Bool.
From stdpp Require Import gmap strings pretty list.

Open Scope string_scope.
Open Scope Z_scope.

(** ** JavaScript primitives used by the worker *)

Module JS.

(** *** Numbers *)

Inductive number : Type :=
| NaN
| PInf
| NInf
| Fin (z : Z).

(** Nearest binary64 value of a mathematical integer (ties to even,
    overflow to an infinity). *)
Definition round_double (z : Z) : number :=
  let a := Z.abs z in
  if a <? 2 ^ 53 then Fin z
  else
    let e := Z.log2 a - 52 in
    let m := Z.shiftr a e in
    let r := Z.land a (Z.ones e) in
    let half := 2 ^ (e - 1) in
    let m' := if (half <? r) || ((r =? half) && Z.odd m) then m + 1 else m in
    let v := m' * 2 ^ e in
    if 2 ^ 1024 <=? v then (if z <? 0 then NInf else PInf)
    else Fin (Z.sgn z * v).

(** ToBoolean on numbers: NaN and zero are falsy. *)
Definition truthy_number (n : number) : bool :=
  match n with
  | NaN => false
  | Fin z => negb (z =? 0)
  | _ => true
  end.

(** [a || b] on numbers. *)
Definition or_number (a b : number) : number :=
  if truthy_number a then a else b.

(** [a >= b]; every comparison with NaN is false. *)
Definition number_ge (a b : number) : bool :=
  match a, b with
  | NaN, _ | _, NaN => false
  | PInf, _ => true
  | _, NInf => true
  | NInf, _ => false
  | _, PInf => false
  | Fin x, Fin y => y <=? x
  end.

(** [a + b] and [a * b], for an integer valued second operand. *)
Definition number_add (a : number) (b : Z) : number :=
  match a with
  | Fin x => round_double (x + b)
  | other => other
  end.

Definition number_mul (a : number) (b : Z) : number :=
  match a with
  | NaN => NaN
  | Fin x => round_double (x * b)
  | PInf => if b =? 0 then NaN else if b <? 0 then NInf else PInf
  | NInf => if b =? 0 then NaN else if b <? 0 then PInf else NInf
  end.

(** [Math.floor(a / d)] for an integer [a].  The quotient of two integer
    valued doubles is rounded before [Math.floor] is taken; for
    [0 <= a < 2^53 - 1] that rounding never reaches the next integer, so the
    result is the floor of the exact quotient.  A zero quotient of either
    sign prints as "0". *)
Definition floor_div (a : Z) (d : number) : number :=
  match d with
  | NaN => NaN
  | PInf | NInf => Fin 0
  | Fin 0 => if a =? 0 then NaN else if a <? 0 then NInf else PInf
  | Fin y => Fin (a / y)
  end.

(** *** Strings *)

Definition truthy_string (s : string) : bool :=
  match s with
  | EmptyString => false
  | _ => true
  end.

(** ToBoolean on a value that is a string, [null] or [undefined]. *)
Definition truthy (o : option string) : bool :=
  match o with
  | Some s => truthy_string s
  | None => false
  end.

(** [o || d] for a string or [null] on the left. *)
Definition or_string (o : option string) (d : string) : string :=
  match o with
  | Some s => if truthy_string s then s else d
  | None => d
  end.

(** [s.split(c)] for a one-character separator. *)
Fixpoint split (c : ascii) (s : string) : list string :=
  match s with
  | EmptyString => [EmptyString]
  | String a s' =>
      if Ascii.eqb a c then EmptyString :: split c s'
      else match split c s' with
           | [] => [String a EmptyString]
           | w :: ws => String a w :: ws
           end
  end.

(** [l.includes(x)] on an array of strings. *)
Definition includes (l : list string) (x : string) : bool :=
  existsb (String.eqb x) l.

(** [s.replace(/c/g, by)] for a one-character pattern. *)
Fixpoint replace_all (c : ascii) (by_ : string) (s : string) : string :=
  match s with
  | EmptyString => EmptyString
  | String a s' =>
      if Ascii.eqb a c then by_ +:+ replace_all c by_ s'
      else String a (replace_all c by_ s')
  end.

(** [s.slice(1)]. *)
Definition slice1 (s : string) : string :=
  match s with
  | EmptyString => EmptyString
  | String _ s' => s'
  end.

(** *** [parseInt] with no radix argument *)

(** The white space that [parseInt] skips, among the code units 0..255. *)
Definition is_white_space (c : ascii) : bool :=
  let n := Z.of_N (N_of_ascii c) in
  ((9 <=? n) && (n <=? 13)) || (n =? 32) || (n =? 160).

Fixpoint trim_start (s : string) : string :=
  match s with
  | String c s' => if is_white_space c then trim_start s' else s
  | EmptyString => EmptyString
  end.

(** Value of a digit in the given radix (10 or 16). *)
Definition digit_value (radix : Z) (c : ascii) : option Z :=
  let n := Z.of_N (N_of_ascii c) in
  let v :=
    if (48 <=? n) && (n <=? 57) then Some (n - 48)
    else if (97 <=? n) && (n <=? 122) then Some (n - 87)
    else if (65 <=? n) && (n <=? 90) then Some (n - 55)
    else None in
  match v with
  | Some d => if d <? radix then Some d else None
  | None => None
  end.

(** The longest prefix of radix digits, as digit values. *)
Fixpoint digits_prefix (radix : Z) (s : string) : list Z :=
  match s with
  | EmptyString => []
  | String c s' =>
      match digit_value radix c with
      | Some d => d :: digits_prefix radix s'
      | None => []
      end
  end.

Definition digits_value (radix : Z) (ds : list Z) : Z :=
  fold_left (fun acc d => acc * radix + d) ds 0.

Definition strip_sign (s : string) : bool * string :=
  match s with
  | String "-" s' => (true, s')
  | String "+" s' => (false, s')
  | _ => (false, s)
  end.

Definition strip_hex_prefix (s : string) : Z * string :=
  match s with
  | String "0" (String "x" s') => (16, s')
  | String "0" (String "X" s') => (16, s')
  | _ => (10, s)
  end.

(** [parseInt(s)]: white space, a sign and a [0x] prefix are skipped, the
    longest run of digits is read, and its value is rounded to a double;
    without a digit the result is NaN. *)
Definition parseInt (s : string) : number :=
  let '(neg, s1) := strip_sign (trim_start s) in
  let '(radix, s2) := strip_hex_prefix s1 in
  match digits_prefix radix s2 with
  | [] => NaN
  | ds =>
      let v := digits_value radix ds in
      round_double (if neg then - v else v)
  end.

(** ToString of a possibly [undefined] string, as [parseInt] and template
    literals apply it. *)
Definition ToString_opt (o : option string) : string :=
  match o with
  | Some s => s
  | None => "undefined"
  end.

(** *** Number to string (radix 10) *)

(** Number of decimal digits of a positive integer. *)
Definition decimal_length (x : Z) : Z :=
  Z.of_nat (String.length (pretty x)).

(** For a finite double [x >= 10^21]: the decimal [s * 10^(n-k)] with the
    fewest significant digits [k] that rounds to [x], looking at the two
    multiples of [10^(n-k)] around [x] and preferring the closer one (the
    even [s] when they are equally close). *)
Definition shortest_candidate (x : Z) (k : Z) : option Z :=
  let e := decimal_length x - k in
  let lo := x / 10 ^ e * 10 ^ e in
  let hi := lo + 10 ^ e in
  let ok v := match round_double v with Fin y => y =? x | _ => false end in
  match ok lo, ok hi with
  | true, true =>
      Some (if x - lo <? hi - x then lo
            else if hi - x <? x - lo then hi
            else if Z.even (lo / 10 ^ e) then lo else hi)
  | true, false => Some lo
  | false, true => Some hi
  | false, false => None
  end.

Fixpoint shortest_from (x : Z) (k : Z) (fuel : nat) : Z :=
  match fuel with
  | O => x
  | S fuel' =>
      match shortest_candidate x k with
      | Some v => v
      | None => shortest_from x (k + 1) fuel'
      end
  end.

Fixpoint drop_trailing_zeros (s : string) : string :=
  match s with
  | EmptyString => EmptyString
  | String c s' =>
      match drop_trailing_zeros s' with
      | EmptyString => if Ascii.eqb c "0" then EmptyString else String c EmptyString
      | t => String c t
      end
  end.

Definition exponent_form (x : Z) : string :=
  let v := shortest_from x 1 17 in
  let n := decimal_length v in
  match drop_trailing_zeros (pretty v) with
  | String d EmptyString => String d ("e+" +:+ pretty (n - 1))
  | String d ds => String d ("." +:+ ds +:+ "e+" +:+ pretty (n - 1))
  | EmptyString => EmptyString
  end.

(** The digits of a double [x >= 2^53] below [10^21]: the shortest
    significant digits that round to [x], followed by zeros. *)
Definition decimal_form (x : Z) : string :=
  pretty (shortest_from x 1 17).

(** [n.toString()] and the conversion done by a template literal.  Integers
    below [2^53] in size print exactly. *)
Definition Number_toString (n : number) : string :=
  match n with
  | NaN => "NaN"
  | PInf => "Infinity"
  | NInf => "-Infinity"
  | Fin z =>
      if Z.abs z <? 2 ^ 53 then pretty z
      else
        let digits := if Z.abs z <? 10 ^ 21 then decimal_form else exponent_form in
        if z <? 0 then "-" +:+ digits (- z) else digits z
  end.

End JS.

Import JS.

(** ** The regular expressions the origin validator builds

    [new RegExp(src)] is modelled on the fragment that the worker's pattern
    translation produces from host-like patterns: the assertions [^] and [$],
    the escaped dot, the class [[a-zA-Z0-9-]+] and ordinary characters.  A
    source outside the fragment is [None]. *)

Module RegExp.

Inductive atom : Type :=
| Bol                (* ^ *)
| Eol                (* $ *)
| Chr (c : ascii)    (* an ordinary or escaped character *)
| LabelPlus.         (* [a-zA-Z0-9-]+ *)

Definition t : Type := list atom.

Definition in_label_class (c : ascii) : bool :=
  let n := Z.of_N (N_of_ascii c) in
  ((97 <=? n) && (n <=? 122)) || ((65 <=? n) && (n <=? 90))
  || ((48 <=? n) && (n <=? 57)) || (n =? 45).

Definition syntax_char (c : ascii) : bool :=
  existsb (Ascii.eqb c)
    ["^"; "$"; "\"; "."; "*"; "+"; "?"; "("; ")"; "["; "]"; "{"; "}"; "|"]%char.

(** The text of the class after its opening bracket. *)
Definition label_class_tail : string := "a-zA-Z0-9-]+".

(** [skip] counts characters already consumed by the atom before. *)
Fixpoint parse_from (skip : nat) (src : string) : option t :=
  match src with
  | EmptyString => Some []
  | String c src' =>
      match skip with
      | S k => parse_from k src'
      | O =>
          if Ascii.eqb c "^" then cons Bol <$> parse_from 0 src'
          else if Ascii.eqb c "$" then cons Eol <$> parse_from 0 src'
          else if Ascii.eqb c "\" then
            match src' with
            | String "." _ => cons (Chr ".") <$> parse_from 1 src'
            | _ => None
            end
          else if Ascii.eqb c "[" then
            if String.prefix label_class_tail src'
            then cons LabelPlus <$> parse_from 12 src'
            else None
          else if syntax_char c then None
          else cons (Chr c) <$> parse_from 0 src'
      end
  end.

Definition parse (src : string) : option t := parse_from 0 src.

(** Does the regular expression match at the current position?  [at_start]
    says whether the position is the start of the input. *)
Fixpoint match_here (r : t) (at_start : bool) (s : string) : bool :=
  match r with
  | [] => true
  | Bol :: r' => at_start && match_here r' at_start s
  | Eol :: r' =>
      match s with
      | EmptyString => match_here r' at_start s
      | _ => false
      end
  | Chr c :: r' =>
      match s with
      | String d s' => Ascii.eqb c d && match_here r' false s'
      | EmptyString => false
      end
  | LabelPlus :: r' =>
      (fix plus (s : string) : bool :=
         match s with
         | String d s' => in_label_class d && (match_here r' false s' || plus s')
         | EmptyString => false
         end) s
  end.

(** A match may start at any position of the input. *)
Fixpoint match_later (r : t) (s : string) : bool :=
  match s with
  | EmptyString => false
  | String _ s' => match_here r false s' || match_later r s'
  end.

Definition exec (r : t) (s : string) : bool :=
  match_here r true s || match_later r s.

(** [new RegExp(src).test(s)]. *)
Definition test (src : string) (s : string) : option bool :=
  (fun r => exec r s) <$> parse src.

End RegExp.


(** ** Scanning text *)

Fixpoint all_chars (f : ascii → bool) (s : string) : bool :=
  match s with
  | EmptyString => true
  | String c s' => f c && all_chars f s'
  end.

Definition none_of (stop : ascii → bool) (s : string) : bool :=
  all_chars (fun c => negb (stop c)) s.

(** The part of a string before the first stop character, and the rest. *)
Fixpoint span (stop : ascii → bool) (s : string) : string * string :=
  match s with
  | EmptyString => (EmptyString, EmptyString)
  | String c s' =>
      if stop c then (EmptyString, s)
      else let '(a, b) := span stop s' in (String c a, b)
  end.

Definition one_of (set : string) (c : ascii) : bool :=
  existsb (Ascii.eqb c) (list_ascii_of_string set).

Definition is_decimal_digit (c : ascii) : bool :=
  let n := Z.of_N (N_of_ascii c) in (48 <=? n) && (n <=? 57).

Definition is_alphanumeric (c : ascii) : bool :=
  let n := Z.of_N (N_of_ascii c) in
  ((97 <=? n) && (n <=? 122)) || ((65 <=? n) && (n <=? 90)) || is_decimal_digit c.

Definition lower_ascii (c : ascii) : ascii :=
  let n := N_of_ascii c in
  if ((65 <=? n) && (n <=? 90))%N then ascii_of_N (n + 32) else c.

Fixpoint lower (s : string) : string :=
  match s with
  | EmptyString => EmptyString
  | String c s' => String (lower_ascii c) (lower s')
  end.

Fixpoint join (sep : string) (l : list string) : string :=
  match l with
  | [] => EmptyString
  | [x] => x
  | x :: l' => x +:+ sep +:+ join sep l'
  end.

(** ** Thrown errors

    The classes of the errors that the platform's constructors throw, and
    one for every other error. *)

Inductive Error : Type :=
| TypeError
| RangeError
| OtherError.

Inductive Result (A : Type) : Type :=
| Returned (a : A)
| Threw (e : Error).

Arguments Returned {A} a.
Arguments Threw {A} e.

(** ** URLs

    [URL_parse] is the URL standard's parser on https URLs whose host is
    written with letters, digits, hyphens and dots (no port, no credentials,
    no IPv4 number, no punycode label), and whose path and query consist of
    characters that the parser leaves as they are.  It fails on a host that
    holds a space and is followed by more text.  Every other input is
    outside the fragment. *)

Record Href : Type := {
  href_host : string;
  href_pathname : string;
  href_search : string
}.

(** The authority ends at the first of these characters, the path at a
    question mark or a hash, the query at a hash. *)
Definition authority_end (c : ascii) : bool := one_of "/?#\" c.

Definition path_end (c : ascii) : bool := one_of "?#" c.

Definition is_hash (c : ascii) : bool := Ascii.eqb c "#".

Definition label_char (c : ascii) : bool :=
  is_alphanumeric c || Ascii.eqb c "-".

Definition starts_with_digit (s : string) : bool :=
  match s with
  | String c _ => is_decimal_digit c
  | EmptyString => false
  end.

(** A label of a host name: not empty, letters, digits and hyphens, and
    not in punycode. *)
Definition host_label (l : string) : bool :=
  truthy_string l && all_chars label_char l
  && negb (String.prefix "xn--" (lower l)).

(** A host name of labels whose last one is not the start of a number. *)
Definition domain_name (h : string) : bool :=
  let labels := split "." h in
  forallb host_label labels && negb (starts_with_digit (List.last labels "")).

(** A host that the host parser rejects: a space among the characters of
    labels.  (A space at the very end of the input is removed before.) *)
Definition host_with_space (h : string) : bool :=
  all_chars (fun c => label_char c || one_of ". " c) h
  && negb (none_of (Ascii.eqb " ") h).

(** Characters that the path state and the query state copy. *)
Definition path_char (c : ascii) : bool :=
  is_alphanumeric c || one_of "-._~!$&()*+,;=:@/%" c.

Definition query_char (c : ascii) : bool :=
  is_alphanumeric c || one_of "-._~!$&()*+,;=:@/%?" c.

(** The segments that the path state removes or resolves. *)
Definition dot_segment (segment : string) : bool :=
  existsb (String.eqb (lower segment))
    ["."; ".."; "%2e"; ".%2e"; "%2e."; "%2e%2e"].

Definition rooted (p : string) : bool :=
  match p with
  | String c _ => Ascii.eqb c "/"
  | EmptyString => false
  end.

(** A path that the parser returns as it is. *)
Definition stable_path (p : string) : bool :=
  rooted p && all_chars path_char p
  && forallb (fun segment => negb (dot_segment segment)) (split "/" p).

Definition URL_parse (input : string) : option (Result Href) :=
  match input with
  | String "h" (String "t" (String "t" (String "p" (String "s"
      (String ":" (String "/" (String "/" rest))))))) =>
      let '(authority, after) := span authority_end rest in
      if host_with_space authority && truthy_string after
      then Some (Threw TypeError)
      else if domain_name authority then
        let '(p, after') := span path_end after in
        let pathname := if truthy_string p then p else "/" in
        let q := match after' with
                 | String "?" q' => fst (span is_hash q')
                 | _ => EmptyString
                 end in
        if stable_path pathname && all_chars query_char q then
          Some (Returned {| href_host := lower authority;
                            href_pathname := pathname;
                            href_search := if truthy_string q
                                           then String "?" q else "" |})
        else None
      else None
  | _ => None
  end.

(** ** Headers, requests and responses *)

Definition Headers : Type := list (string * string).

(** [headers.get(name)]: names compare case-insensitively, several values
    of one name are combined, an absent name gives [null]. *)
Definition Headers_get (h : Headers) (name : string) : option string :=
  match List.filter (fun p => String.eqb (lower (fst p)) (lower name)) h with
  | [] => None
  | l => Some (join ", " (map snd l))
  end.

(** The fields of [new URL(request.url)] that the dispatcher reads. *)
Record URL : Type := {
  pathname : string;
  search : string;
  searchParams : list (string * string)
}.

(** [searchParams.get(name)]: the first value of that name. *)
Fixpoint searchParams_get (l : list (string * string)) (name : string)
  : option string :=
  match l with
  | [] => None
  | (k, v) :: l' => if String.eqb k name then Some v else searchParams_get l' name
  end.

(** The inbound request. *)
Record Request : Type := {
  method : string;
  url : URL;
  headers : Headers;
  body : option string
}.

Record Response : Type := {
  status : Z;
  res_body : option string;
  res_headers : Headers
}.

(** A request object made by the worker: what the platform's [fetch]
    sends. *)
Record Outbound : Type := {
  out_url : Href;
  out_method : string;
  out_headers : Headers;
  out_body : option string
}.

Record RequestInit : Type := {
  init_method : string;
  init_headers : Headers;
  init_body : option string
}.

Definition non_null {A} (o : option A) : bool :=
  match o with
  | Some _ => true
  | None => false
  end.

(** The methods that the constructor takes as they are. *)
Definition known_method (m : string) : bool :=
  existsb (String.eqb m)
    ["GET"; "HEAD"; "POST"; "PUT"; "DELETE"; "PATCH"; "OPTIONS"].

Definition get_or_head (m : string) : bool :=
  String.eqb m "GET" || String.eqb m "HEAD".

(** [new Request(input, init)] for an init dictionary: the URL is parsed,
    and a body with GET or HEAD is a TypeError. *)
Definition Request_new (input : string) (init : RequestInit)
  : option (Result Outbound) :=
  match URL_parse input with
  | None => None
  | Some (Threw e) => Some (Threw e)
  | Some (Returned u) =>
      if negb (known_method (init_method init)) then None
      else if get_or_head (init_method init) && non_null (init_body init)
      then Some (Threw TypeError)
      else Some (Returned {| out_url := u;
                             out_method := init_method init;
                             out_headers := init_headers init;
                             out_body := init_body init |})
  end.

(** The request that [fetch(input, request)] sends: the URL is parsed, and
    method, headers and body are those of [request].  A GET or HEAD request
    that has a body is outside the fragment. *)
Definition Request_from (input : string) (request : Request)
  : option (Result Outbound) :=
  match URL_parse input with
  | None => None
  | Some (Threw e) => Some (Threw e)
  | Some (Returned u) =>
      if negb (known_method (method request)) then None
      else if get_or_head (method request) && non_null (body request)
      then None
      else Some (Returned {| out_url := u;
                             out_method := method request;
                             out_headers := headers request;
                             out_body := body request |})
  end.

(** The first argument of [new Response]. *)
Inductive BodyInit : Type :=
| NullBody
| TextBody (s : string)
| StreamBody (s : string).

(** [res.body] *)
Definition body_stream (res : Response) : BodyInit :=
  match res_body res with
  | Some b => StreamBody b
  | None => NullBody
  end.

Definition null_body_status (s : Z) : bool :=
  existsb (Z.eqb s) [101; 204; 205; 304].

(** [new Response(body, { status, headers })]: a status outside 200..599 is
    a RangeError, a body with a null body status a TypeError, and a text
    body brings its content type unless the headers have one. *)
Definition Response_new (body : BodyInit) (status : Z) (headers : Headers)
  : Result Response :=
  if negb ((200 <=? status) && (status <=? 599)) then Threw RangeError
  else
    match body with
    | NullBody =>
        Returned {| status := status; res_body := None; res_headers := headers |}
    | StreamBody b =>
        if null_body_status status then Threw TypeError
        else Returned {| status := status; res_body := Some b;
                         res_headers := headers |}
    | TextBody b =>
        if null_body_status status then Threw TypeError
        else Returned {| status := status; res_body := Some b;
                         res_headers :=
                           match Headers_get headers "Content-Type" with
                           | Some _ => headers
                           | None =>
                               (headers ++ [("Content-Type",
                                             "text/plain;charset=UTF-8")])%list
                           end |}
    end.

(** [interface Env]; a variable that is not set is [None].  The KV namespace
    handle [RATE_LIMIT_NAMESPACE] denotes the store of the world below. *)
Module Env.
Record t : Type := {
  CORS_ALLOW_ORIGIN : option string;
  HELIUS_API_KEY : option string;
  RATE_LIMIT_MAX_REQUESTS : option string;
  RATE_LIMIT_TIME_WINDOW : option string;
  WHITELISTED_IPS : option string
}.
End Env.
Abbreviation Env := Env.t.

(** ** The world: the KV namespace and the effects performed *)

Inductive event : Type :=
| KVGet (key : string)
| KVPut (key value : string) (expirationTtl : Z)
| ReadText
| Fetch (out : Outbound).

(** An entry of the namespace is a value and the time (in milliseconds)
    at which it expires. *)
Record World : Type := {
  kv : gmap string (string * Z);
  log : list event
}.

(** Computations of a request: they change the world and end in a value or
    a thrown error, or leave the modelled fragment ([None]). *)
Section Monad.

Definition M (A : Type) : Type := World -> option (Result A * World).

Definition ret {A} (a : A) : M A := fun w => Some (Returned a, w).

Definition bind {A B} (m : M A) (k : A -> M B) : M B :=
  fun w => match m w with
           | Some (Returned a, w') => k a w'
           | Some (Threw e, w') => Some (Threw e, w')
           | None => None
           end.

(** A value of the fragment, or none. *)
Definition lift {A} (o : option A) : M A :=
  fun w => match o with
           | Some a => Some (Returned a, w)
           | None => None
           end.

(** The result of a constructor. *)
Definition construct {A} (o : option (Result A)) : M A :=
  fun w => match o with
           | Some r => Some (r, w)
           | None => None
           end.

Definition emit (e : event) : M unit :=
  fun w => Some (Returned tt, {| kv := kv w; log := (log w ++ [e])%list |}).

End Monad.

Notation "x <- m ;; k" := (bind m (fun x => k))
  (at level 100, m at next level, right associativity).
Notation "m ;;; k" := (bind m (fun _ => k))
  (at level 100, right associativity).

(** The live value of a key at time [now]. *)
Definition kv_lookup (now : Z) (store : gmap string (string * Z)) (key : string)
  : option string :=
  match store !! key with
  | Some (v, expires) => if now <? expires then Some v else None
  | None => None
  end.

(** [await env.RATE_LIMIT_NAMESPACE.get(key)]. *)
Definition KV_get (now : Z) (key : string) : M (option string) :=
  emit (KVGet key) ;;;
  fun w => Some (Returned (kv_lookup now (kv w) key), w).

(** [await env.RATE_LIMIT_NAMESPACE.put(key, value, { expirationTtl })]. *)
Definition KV_put (now : Z) (key value : string) (expirationTtl : Z) : M unit :=
  emit (KVPut key value expirationTtl) ;;;
  fun w => Some (Returned tt,
                 {| kv := <[key := (value, now + expirationTtl * 1000)]> (kv w);
                    log := log w |}).

(** [await request.text()]: the whole body, the empty string for no body. *)
Definition bodyText (request : Request) : string :=
  match body request with
  | Some b => b
  | None => EmptyString
  end.

Definition text (request : Request) : M string :=
  emit ReadText ;;;
  ret (bodyText request).

(** The platform's [fetch] of a request object: the upstream answers, or the
    promise is rejected with the error of the failure. *)
Definition platform_fetch (upstream : Outbound -> Result Response) (out : Outbound)
  : M Response :=
  emit (Fetch out) ;;;
  construct (Some (upstream out)).

(** ** The worker *)

Section Worker.

(** [Date.now()], in milliseconds, and the upstream's answers. *)
Variable now : Z.
Variable upstream : Outbound -> Result Response.

(** *** [handleRequest] *)

Definition CLUSTER (request : Request) : string :=
  or_string (searchParams_get (searchParams (url request)) "cluster") "mainnet".

Definition upgradeHeader (request : Request) : option string :=
  Headers_get (headers request) "Upgrade".

(** [upgradeHeader || upgradeHeader === 'websocket'] *)
Definition isUpgrade (request : Request) : bool :=
  truthy (upgradeHeader request)
  || match upgradeHeader request with
     | Some v => String.eqb v "websocket"
     | None => false
     end.

Definition websocketUrl (request : Request) (env : Env) : string :=
  "https://" +:+ CLUSTER request +:+ ".helius-rpc.com/?api-key="
  +:+ ToString_opt (Env.HELIUS_API_KEY env).

Definition proxyUrl (request : Request) (env : Env) : string :=
  let pathname := pathname (url request) in
  let search := search (url request) in
  "https://"
  +:+ (if String.eqb pathname "/"
       then CLUSTER request +:+ ".helius-rpc.com"
       else "api.helius.xyz")
  +:+ pathname +:+ "?api-key=" +:+ ToString_opt (Env.HELIUS_API_KEY env)
  +:+ (if truthy_string search then "&" +:+ slice1 search else "").

(** The second argument of [new Request]. *)
Definition proxyInit (request : Request) (payload : string) : RequestInit :=
  {| init_method := method request;
     init_body := if truthy_string payload then Some payload else None;
     init_headers := [("Content-Type", "application/json");
                      ("X-Helius-Cloudflare-Proxy", "true")] |}.

Definition proxyRequest (request : Request) (env : Env) (payload : string)
  : option (Result Outbound) :=
  Request_new (proxyUrl request env) (proxyInit request payload).

(** [fetch(url, request)]: the inbound request itself is the init. *)
Definition websocketRequest (request : Request) (env : Env)
  : option (Result Outbound) :=
  Request_from (websocketUrl request env) request.

Definition handleRequest (request : Request) (env : Env) (corsHeaders : Headers)
  : M Response :=
  if isUpgrade request then
    out <- construct (websocketRequest request env) ;;
    platform_fetch upstream out
  else
    payload <- text request ;;
    proxyRequest <- construct (proxyRequest request env payload) ;;
    res <- platform_fetch upstream proxyRequest ;;
    construct (Some (Response_new (body_stream res) (status res) corsHeaders)).

(** *** CORS *)

Definition supportedDomains (env : Env) : option (list string) :=
  match Env.CORS_ALLOW_ORIGIN env with
  | Some s => if truthy_string s then Some (split "," s) else None
  | None => None
  end.

Definition domainPattern (domain : string) : string :=
  replace_all "*" "[a-zA-Z0-9-]+" (replace_all "." "\." domain).

Definition regexPattern (domain : string) : string :=
  "^" +:+ domainPattern domain +:+ "$".

(** [l.some(f)], left to right, stopping at the first hit. *)
Fixpoint some {A} (f : A -> option bool) (l : list A) : option bool :=
  match l with
  | [] => Some false
  | x :: l' =>
      match f x with
      | Some true => Some true
      | Some false => some f l'
      | None => None
      end
  end.

Definition isWhitelisted (domains : list string) (origin : string)
  : option bool :=
  some (fun domain => RegExp.test (regexPattern domain) origin) domains.

Definition baseCorsHeaders : Headers :=
  [("Access-Control-Allow-Methods", "GET, HEAD, POST, PUT, OPTIONS");
   ("Access-Control-Allow-Headers", "*")].

Definition corsHeaders (request : Request) (env : Env) : option Headers :=
  match supportedDomains env with
  | Some domains =>
      match Headers_get (headers request) "Origin" with
      | Some origin =>
          if truthy_string origin then
            match isWhitelisted domains origin with
            | Some true =>
                Some (baseCorsHeaders ++ [("Access-Control-Allow-Origin", origin)])%list
            | Some false => Some baseCorsHeaders
            | None => None
            end
          else Some baseCorsHeaders
      | None => Some baseCorsHeaders
      end
  | None => Some (baseCorsHeaders ++ [("Access-Control-Allow-Origin", "*")])%list
  end.

(** *** Allow-list and rate limiter *)

Definition clientIdentifier (request : Request) : string :=
  or_string (Headers_get (headers request) "CF-Connecting-IP") "unknown".

Definition whitelistedIps (env : Env) : list string :=
  match Env.WHITELISTED_IPS env with
  | Some s => if truthy_string s then split "," s else []
  | None => []
  end.

Definition RATE_LIMIT_MAX_REQUESTS (env : Env) : number :=
  or_number (parseInt (ToString_opt (Env.RATE_LIMIT_MAX_REQUESTS env))) (Fin 50).

Definition RATE_LIMIT_TIME_WINDOW (env : Env) : number :=
  or_number (parseInt (ToString_opt (Env.RATE_LIMIT_TIME_WINDOW env))) (Fin 1).

Definition currentTime (env : Env) : number :=
  floor_div now (number_mul (RATE_LIMIT_TIME_WINDOW env) 1000).

Definition windowKey (request : Request) (env : Env) : string :=
  clientIdentifier request +:+ ":" +:+ Number_toString (currentTime env).

(** [requestCount ? parseInt(requestCount) : 0] *)
Definition countOf (requestCount : option string) : number :=
  match requestCount with
  | Some s => if truthy_string s then parseInt s else Fin 0
  | None => Fin 0
  end.

(** *** [fetch] *)

Definition fetch (request : Request) (env : Env) : M Response :=
  corsHeaders <- lift (corsHeaders request env) ;;
  if String.eqb (method request) "OPTIONS" then
    construct (Some (Response_new NullBody 200 corsHeaders))
  else if includes (whitelistedIps env) (clientIdentifier request) then
    handleRequest request env corsHeaders
  else
    requestCount <- KV_get now (windowKey request env) ;;
    let count := countOf requestCount in
    if number_ge count (RATE_LIMIT_MAX_REQUESTS env) then
      construct (Some (Response_new (TextBody "Rate limit exceeded") 429
                                    corsHeaders))
    else
      KV_put now (windowKey request env)
             (Number_toString (number_add count 1)) 60 ;;;
      handleRequest request env corsHeaders.

End Worker.

(** The runtime calls [fetch] once per inbound request; here the calls, each
    with its clock value, are handled one after the other.  A call that
    throws has its error as outcome, and the next call is handled. *)
Fixpoint serve (upstream : Outbound → Result Response) (env : Env)
    (calls : list (Z * Request)) (w : World)
  : option (list (Result Response) * World) :=
  match calls with
  | [] => Some ([], w)
  | (t, request) :: rest =>
      match fetch t upstream request env w with
      | Some (r, w1) =>
          match serve upstream env rest w1 with
          | Some (rs, w2) => Some (r :: rs, w2)
          | None => None
          end
      | None => None
      end
  end.
(** * Vocabulary of the statements *)

(** ** Strings *)

(** Reading the decimal digits of a string into an accumulator. *)
Definition read10 (s : string) (acc : Z) : Z :=
  fold_left (fun a d => a * 10 + d) (digits_prefix 10 s) acc.

(** ** Effects *)

Definition is_kv_event (e : event) : bool :=
  match e with
  | KVGet _ | KVPut _ _ _ => true
  | _ => false
  end.

(** ** Windows *)

(** The current time in seconds, as a rational, from [Date.now()]. *)
Definition unix_time_seconds (now : Z) : Q := (inject_Z now / 1000)%Q.

(** floor(current_unix_time_seconds / window_length_seconds) *)
Definition window_floor (now W : Z) : Z :=
  Qfloor (unix_time_seconds now / inject_Z W)%Q.

(** ** Origin patterns *)

(** Patterns written with ordinary characters, dots and stars. *)
Definition pattern_char (c : ascii) : bool :=
  negb (RegExp.syntax_char c) || Ascii.eqb c "." || Ascii.eqb c "*".

Definition host_pattern (domain : string) : bool :=
  all_chars pattern_char domain.

(** What a pattern means: every character stands for itself, except the
    star, which stands for one non-empty run of letters, digits and
    hyphens; the whole origin has to be consumed. *)
Inductive wildcard_match : string → string → Prop :=
| wm_end : wildcard_match "" ""
| wm_char (c : ascii) (p s : string) :
    c ≠ "*"%char →
    wildcard_match p s →
    wildcard_match (String c p) (String c s)
| wm_star (p seg s : string) :
    seg ≠ "" →
    all_chars RegExp.in_label_class seg = true →
    wildcard_match p s →
    wildcard_match (String "*" p) (seg +:+ s).

(** The regular expression that [regexPattern] denotes for a host pattern,
    between the two anchors. *)
Fixpoint atoms_of (domain : string) : RegExp.t :=
  match domain with
  | EmptyString => []
  | String c d =>
      (if Ascii.eqb c "*" then RegExp.LabelPlus else RegExp.Chr c) :: atoms_of d
  end.

(** ** Numeric settings *)

(** The text starts, after white space and an optional sign, with a
    decimal digit: it denotes a number to [parseInt]. *)
Definition has_integer_prefix (s : string) : Prop :=
  ∃ ws sign d rest,
    s = ws +:+ sign +:+ String d rest
    ∧ all_chars is_white_space ws = true
    ∧ (sign = "" ∨ sign = "+" ∨ sign = "-")
    ∧ is_decimal_digit d = true.

(** The same, as a test. *)
Definition integer_prefixb (s : string) : bool :=
  match snd (strip_sign (trim_start s)) with
  | String d _ => is_decimal_digit d
  | EmptyString => false
  end.

(** A setting that is not set, or whose text denotes no number. *)
Definition missing_or_non_numeric (setting : option string) : Prop :=
  match setting with
  | None => True
  | Some s => ¬ has_integer_prefix s
  end.

(** ** Routing *)

(** The host the routing rule names for a path and a cluster. *)
Definition upstreamHost (pathname cluster : string) : string :=
  if String.eqb pathname "/" then lower cluster +:+ ".helius-rpc.com"
  else "api.helius.xyz".

(** A cluster value written as labels of letters, digits and hyphens,
    separated by dots. *)
Definition cluster_name (cluster : string) : bool :=
  forallb host_label (split "." cluster).

(** A request with a method that the constructor takes as it is, and with
    no body when the method is GET or HEAD. *)
Definition sendable (request : Request) : bool :=
  known_method (method request)
  && negb (get_or_head (method request) && non_null (body request)).

(** The request object that the dispatcher makes for an inbound request. *)
Definition outbound (request : Request) (env : Env) : option (Result Outbound) :=
  if isUpgrade request then websocketRequest request env
  else proxyRequest request env (bodyText request).

Definition forwardable (request : Request) (env : Env) : Prop :=
  ∃ out, outbound request env = Some (Returned out).

(** ** Requests in sequence *)

Definition empty_world : World := {| kv := ∅; log := [] |}.

(** The outcome and the effects of the dispatcher, which do not depend on
    the world it runs in: those of a run that starts with nothing done. *)
Definition dispatchOutcome (upstream : Outbound → Result Response)
    (request : Request) (env : Env) (cors : Headers) : option (Result Response) :=
  fst <$> handleRequest upstream request env cors empty_world.

Definition dispatchTrace (upstream : Outbound → Result Response)
    (request : Request) (env : Env) (cors : Headers) : list event :=
  match handleRequest upstream request env cors empty_world with
  | Some (_, w) => log w
  | None => []
  end.

(** The number of calls of the platform's [fetch] in a log. *)
Fixpoint upstream_calls (l : list event) : nat :=
  match l with
  | [] => O
  | Fetch _ :: l' => S (upstream_calls l')
  | _ :: l' => upstream_calls l'
  end.

(** A call that reaches the limiter for the identity [id] in the window
    with index [idx]. *)
Definition limited_call (env : Env) (id : string) (idx : Z)
    (call : Z * Request) : Prop :=
  method (snd call) ≠ "OPTIONS"
  ∧ clientIdentifier (snd call) = id
  ∧ is_Some (corsHeaders (snd call) env)
  ∧ currentTime (fst call) env = Fin idx.

(** Every entry of the store is the decimal text of a count from 1 to
    2^53, the largest value that adding 1 can reach. *)
Definition counts_only (store : gmap string (string * Z)) : Prop :=
  ∀ k v expires, store !! k = Some (v, expires) →
                 ∃ c, 1 <= c <= 2 ^ 53 ∧ v = pretty c.

Definition is_colon (c : ascii) : bool := Ascii.eqb c ":".

Definition is_dollar (c : ascii) : bool := Ascii.eqb c "$".

(** The name of the header that grants an origin. *)
Definition allow_origin : string := "Access-Control-Allow-Origin".

(** ** Sample requests and configurations *)

Definition url_of (pathname search : string) (params : list (string * string))
  : URL :=
  {| pathname := pathname; search := search; searchParams := params |}.

Definition sample_url : URL :=
  url_of "/" "?cluster=devnet" [("cluster", "devnet")].

Definition request_from (origin ip : string) : Request :=
  {| method := "POST"; url := sample_url;
     headers := [("Origin", origin); ("CF-Connecting-IP", ip)];
     body := Some "{}" |}.

Definition env_with (origins : option string) (max window ips : option string) : Env :=
  {| Env.CORS_ALLOW_ORIGIN := origins;
     Env.HELIUS_API_KEY := Some "KEY";
     Env.RATE_LIMIT_MAX_REQUESTS := max;
     Env.RATE_LIMIT_TIME_WINDOW := window;
     Env.WHITELISTED_IPS := ips |}.

Definition sample_answer : Response :=
  {| status := 200; res_body := Some "{}";
     res_headers := [("Content-Type", "application/json")] |}.

Definition sample_upstream (out : Outbound) : Result Response :=
  Returned sample_answer.

(** An upstream that answers with a status outside 200..599. *)
Definition busy_answer : Response :=
  {| status := 999; res_body := Some "busy"; res_headers := [] |}.

Definition busy_upstream (out : Outbound) : Result Response :=
  Returned busy_answer.

Definition now0 : Z := 1700000000123.

(** A store in which the client at 1.2.3.4 has used two requests of the
    current window. *)
Definition used_world : World :=
  {| kv := <["1.2.3.4:1700000000" := ("2", 1700000060000)]> ∅; log := [] |}.

Definition client : Request :=
  request_from "https://app.example.com" "1.2.3.4".

(** A request for another path, with no [cluster] parameter. *)
Definition api_client : Request :=
  {| method := "GET"; url := url_of "/v0/transactions" "" [];
     headers := [("CF-Connecting-IP", "1.2.3.4")];
     body := None |}.

(** The CORS headers when no origin list is configured. *)
Definition open_cors : Headers :=
  (baseCorsHeaders ++ [("Access-Control-Allow-Origin", "*")])%list.

Definition empty_upgrade_request : Request :=
  {| method := "GET"; url := sample_url;
     headers := [("Upgrade", "")]; body := None |}.

Definition websocket_request : Request :=
  {| method := "GET"; url := sample_url;
     headers := [("Upgrade", "websocket")]; body := None |}.

Definition long_window_env : Env :=
  env_with None (Some "1") (Some "120") None.

(** A request whose [cluster] parameter names a foreign host. *)
Definition foreign_cluster_request : Request :=
  {| method := "POST";
     url := url_of "/" "?cluster=evil.example/" [("cluster", "evil.example/")];
     headers := [("CF-Connecting-IP", "1.2.3.4")];
     body := Some "{}" |}.

(** A GET request that has a body, and a request whose [cluster]
    parameter holds a space. *)
Definition get_with_body : Request :=
  {| method := "GET"; url := sample_url;
     headers := [("CF-Connecting-IP", "1.2.3.4")];
     body := Some "{}" |}.

Definition spaced_cluster_request : Request :=
  {| method := "POST";
     url := url_of "/" "?cluster=a%20b" [("cluster", "a b")];
     headers := [("CF-Connecting-IP", "1.2.3.4")];
     body := Some "{}" |}.

(** Calls of another client. *)
Definition other_calls : list (Z * Request) :=
  [(1700000000123, request_from "https://app.example.com" "5.6.7.8");
   (1700000000200, request_from "https://app.example.com" "5.6.7.8")].

(** Calls of the client in the window before, one more than the maximum
    of 2 admits. *)
Definition earlier_calls : list (Z * Request) :=
  [(1699999999100, client); (1699999999200, client); (1699999999300, client)].

(** A configuration with an allow-list, and calls of a listed client. *)
Definition listed_env : Env :=
  env_with None (Some "1") None (Some "10.0.0.1,10.0.0.2").

Definition listed_calls : list (Z * Request) :=
  [(1700000000123, request_from "https://app.example.com" "10.0.0.2");
   (1700000000124, request_from "https://app.example.com" "10.0.0.2");
   (1700000000125, request_from "https://app.example.com" "10.0.0.2")].

(** Three calls of one client within one second. *)
Definition burst_calls : list (Z * Request) :=
  [(1700000000123, client); (1700000000500, client); (1700000000999, client)].

(** * Properties *)

(** ** Numbers and their decimal text *)

Section Decimal.

Lemma round_double_safe z : Z.abs z < 2 ^ 53 → round_double z = Fin z.
Proof.
  intros Hz. unfold round_double.
  destruct (Z.ltb_spec (Z.abs z) (2 ^ 53)); [done | lia].
Qed.

Lemma digit_value_pretty_char (x : N) :
  (x < 10)%N → digit_value 10 (pretty_N_char x) = Some (Z.of_N x).
Proof.
  intros Hx.
  assert (x = 0 ∨ x = 1 ∨ x = 2 ∨ x = 3 ∨ x = 4 ∨ x = 5 ∨ x = 6
          ∨ x = 7 ∨ x = 8 ∨ x = 9)%N as Hc by lia.
  repeat (destruct Hc as [-> | Hc]; [reflexivity |]). by subst.
Qed.

Lemma read10_pretty_go (x : N) : ∀ s,
  ∃ k, 0 <= k ∧ ∀ acc, read10 (pretty_N_go x s) acc
                       = read10 s (acc * 10 ^ k + Z.of_N x).
Proof.
  induction (N.lt_wf_0 x) as [x _ IH]; intros s.
  destruct (decide (x = 0%N)) as [-> | Hx].
  - exists 0. split; [lia |]. intros acc. rewrite pretty_N_go_0.
    f_equal. lia.
  - rewrite pretty_N_go_step by lia.
    destruct (IH (x `div` 10)%N) with
      (s := String (pretty_N_char (x `mod` 10)) s) as (k & Hk & Hread).
    { apply N.div_lt; lia. }
    exists (k + 1). split; [lia |]. intros acc. rewrite Hread.
    unfold read10 at 1. simpl.
    rewrite digit_value_pretty_char by (apply N.mod_lt; lia).
    simpl. fold (read10 s). f_equal.
    rewrite Z.pow_add_r by lia.
    pose proof (N.div_mod x 10 ltac:(lia)) as Hdm.
    apply (f_equal Z.of_N) in Hdm.
    rewrite N2Z.inj_add, N2Z.inj_mul in Hdm. simpl Z.of_N in Hdm at 2. lia.
Qed.

(** The decimal text of a positive number starts with a digit 1..9. *)
Lemma pretty_go_head (x : N) : ∀ s,
  (0 < x)%N →
  ∃ c rest d, pretty_N_go x s = String c rest
              ∧ digit_value 10 c = Some d ∧ 1 <= d.
Proof.
  induction (N.lt_wf_0 x) as [x _ IH]; intros s Hx.
  rewrite pretty_N_go_step by lia.
  destruct (decide (x `div` 10 = 0)%N) as [Hq | Hq].
  - rewrite Hq, pretty_N_go_0.
    assert (x < 10)%N by (apply N.div_small_iff in Hq; lia).
    rewrite N.mod_small by done.
    eexists _, _, _. split; [done |]. split.
    + by apply digit_value_pretty_char.
    + lia.
  - apply IH; [apply N.div_lt; lia | by apply N.neq_0_lt_0].
Qed.

Lemma decimal_digit_char (c : ascii) (d : Z) (rest : string) :
  digit_value 10 c = Some d →
  is_white_space c = false
  ∧ strip_sign (String c rest) = (false, String c rest)
  ∧ (1 <= d → strip_hex_prefix (String c rest) = (10, String c rest)).
Proof.
  destruct c as [[] [] [] [] [] [] [] []]; vm_compute; intros [= <-];
    (split; [done | split; [done | intros H; try done; by destruct H]]).
Qed.

(** The text of a positive number reads back as that number. *)
Lemma parse_positive_text (p : positive) :
  let s := pretty_N_go (N.pos p) "" in
  trim_start s = s
  ∧ strip_sign s = (false, s)
  ∧ strip_hex_prefix s = (10, s)
  ∧ digits_prefix 10 s ≠ []
  ∧ digits_value 10 (digits_prefix 10 s) = Z.pos p.
Proof.
  intros s. subst s.
  destruct (pretty_go_head (N.pos p) "" ltac:(lia)) as (c & rest & d & Hs & Hd & Hd1).
  destruct (decimal_digit_char c d rest Hd) as (Hws & Hsign & Hhex).
  destruct (read10_pretty_go (N.pos p) "") as (k & _ & Hread).
  specialize (Hread 0). unfold read10 in Hread. simpl in Hread.
  rewrite Hs in *. simpl trim_start. rewrite Hws.
  repeat split; [done | by apply Hhex | | done].
  simpl. by rewrite Hd.
Qed.

Lemma pretty_pos_unfold (p : positive) :
  pretty (Z.pos p) = pretty_N_go (N.pos p) "".
Proof. reflexivity. Qed.

Lemma pretty_neg_unfold (p : positive) :
  pretty (Z.neg p) = String "-" (pretty_N_go (N.pos p) "").
Proof. reflexivity. Qed.

(** [parseInt] inverts the decimal printing of integers, up to the
    rounding to binary64. *)
Lemma parseInt_pretty (z : Z) : parseInt (pretty z) = round_double z.
Proof.
  destruct z as [| p | p].
  - reflexivity.
  - rewrite pretty_pos_unfold.
    destruct (parse_positive_text p) as (Ht & Hs & Hh & Hne & Hv).
    unfold parseInt. rewrite Ht, Hs, Hh.
    destruct (digits_prefix 10 _) eqn:E; [done |]. by rewrite Hv.
  - rewrite pretty_neg_unfold.
    destruct (parse_positive_text p) as (Ht & Hs & Hh & Hne & Hv).
    unfold parseInt. simpl trim_start. simpl strip_sign. cbv iota beta.
    rewrite Hh.
    destruct (digits_prefix 10 _) eqn:E; [done |]. by rewrite Hv.
Qed.

Lemma parseInt_pretty_safe (z : Z) :
  Z.abs z < 2 ^ 53 → parseInt (pretty z) = Fin z.
Proof. intros. by rewrite parseInt_pretty, round_double_safe. Qed.

Lemma Number_toString_small (z : Z) :
  Z.abs z < 2 ^ 53 → Number_toString (Fin z) = pretty z.
Proof.
  intros Hz. unfold Number_toString.
  destruct (Z.ltb_spec (Z.abs z) (2 ^ 53)); [done | lia].
Qed.

Lemma Number_toString_upto (z : Z) :
  0 <= z <= 2 ^ 53 → Number_toString (Fin z) = pretty z.
Proof.
  intros Hz. destruct (decide (z = 2 ^ 53)) as [-> | Hne].
  - by vm_compute.
  - apply Number_toString_small. lia.
Qed.

End Decimal.


(** ** Texts *)

Section Text.

Lemma append_cons (c : ascii) (s t : string) :
  String c s +:+ t = String c (s +:+ t).
Proof. reflexivity. Qed.

Lemma append_nil (t : string) : "" +:+ t = t.
Proof. reflexivity. Qed.

Lemma append_nil_r (s : string) : s +:+ "" = s.
Proof. induction s as [| c s IH]; [done |]. rewrite append_cons. by f_equal. Qed.

Lemma append_assoc (a b c : string) : (a +:+ b) +:+ c = a +:+ b +:+ c.
Proof. induction a as [| x a IH]; [done |]. rewrite !append_cons. by f_equal. Qed.

Lemma prefix_empty (s : string) : String.prefix "" s = true.
Proof. by destruct s. Qed.

Lemma all_chars_app (f : ascii → bool) (a b : string) :
  all_chars f (a +:+ b) = all_chars f a && all_chars f b.
Proof.
  induction a as [| x a IH]; [done |].
  rewrite append_cons. cbn [all_chars]. by rewrite IH, andb_assoc.
Qed.

Lemma all_chars_impl (f g : ascii → bool) (s : string) :
  (∀ c, f c = true → g c = true) →
  all_chars f s = true → all_chars g s = true.
Proof.
  intros Hfg. induction s as [| c s IH]; [done |].
  cbn [all_chars]. intros [Hc Hs]%andb_prop. by rewrite (Hfg c Hc), (IH Hs).
Qed.

Lemma span_app (stop : ascii → bool) (a : string) (c : ascii) (b : string) :
  none_of stop a = true → stop c = true →
  span stop (a +:+ String c b) = (a, String c b).
Proof.
  intros Ha Hc. induction a as [| x a IH].
  - rewrite append_nil. cbn [span]. by rewrite Hc.
  - cbn [none_of all_chars] in Ha. apply andb_prop in Ha as [Hx Ha].
    rewrite append_cons. cbn [span].
    apply negb_true_iff in Hx. rewrite Hx. by rewrite (IH Ha).
Qed.

Lemma span_none (stop : ascii → bool) (s : string) :
  none_of stop s = true → span stop s = (s, "").
Proof.
  unfold none_of. induction s as [| c s IH]; [done |].
  cbn [all_chars span]. intros [Hc Hs]%andb_prop.
  apply negb_true_iff in Hc. by rewrite Hc, (IH Hs).
Qed.

Lemma none_of_app (stop : ascii → bool) (a b : string) :
  none_of stop a = true → none_of stop b = true → none_of stop (a +:+ b) = true.
Proof. unfold none_of. intros Ha Hb. by rewrite all_chars_app, Ha, Hb. Qed.

Lemma none_of_weaken (p q : ascii → bool) (s : string) :
  (∀ c, q c = true → p c = true) →
  none_of p s = true → none_of q s = true.
Proof.
  unfold none_of. intros Hpq. apply all_chars_impl. intros c Hc.
  apply negb_true_iff. apply negb_true_iff in Hc.
  destruct (q c) eqn:Hq; [| done]. by rewrite (Hpq c Hq) in Hc.
Qed.

(** Characters that are in one set are outside a disjoint one. *)
Lemma all_chars_none_of (f stop : ascii → bool) (s : string) :
  (∀ c, f c = true → stop c = false) →
  all_chars f s = true → none_of stop s = true.
Proof.
  intros Hdis. unfold none_of. apply all_chars_impl.
  intros c Hc. by rewrite (Hdis c Hc).
Qed.

Lemma lower_app (a b : string) : lower (a +:+ b) = lower a +:+ lower b.
Proof.
  induction a as [| x a IH]; [done |].
  rewrite append_cons. cbn [lower]. by rewrite IH.
Qed.

Lemma split_not_nil (c : ascii) (s : string) : split c s ≠ [].
Proof.
  induction s as [| a s IH]; [done |]. cbn [split].
  destruct (Ascii.eqb a c); [done |]. by destruct (split c s).
Qed.

Lemma split_app (c : ascii) (a b : string) :
  split c (a +:+ String c b) = (split c a ++ split c b)%list.
Proof.
  induction a as [| x a IH].
  - rewrite append_nil. cbn [split]. by rewrite Ascii.eqb_refl.
  - rewrite append_cons. cbn [split]. rewrite IH.
    destruct (Ascii.eqb x c); [done |].
    pose proof (split_not_nil c a). by destruct (split c a).
Qed.

End Text.

(** Bring both sides of an equation between texts to one shape. *)
Ltac norm_append :=
  repeat (rewrite append_assoc || rewrite append_cons
          || rewrite append_nil || rewrite append_nil_r);
  reflexivity.

(** ** The URL parser on the worker's templates *)

Section Templates.

Lemma label_char_not_end (c : ascii) :
  label_char c || one_of ". " c = true → authority_end c = false.
Proof. destruct c as [[] [] [] [] [] [] [] []]; by vm_compute. Qed.

Lemma label_char_not_space (c : ascii) :
  label_char c || Ascii.eqb c "." = true → Ascii.eqb " " c = false.
Proof. destruct c as [[] [] [] [] [] [] [] []]; by vm_compute. Qed.

Lemma path_char_not_end (c : ascii) : path_char c = true → path_end c = false.
Proof. destruct c as [[] [] [] [] [] [] [] []]; by vm_compute. Qed.

Lemma query_char_not_hash (c : ascii) : query_char c = true → is_hash c = false.
Proof. destruct c as [[] [] [] [] [] [] [] []]; by vm_compute. Qed.

Lemma path_char_query_char (c : ascii) : path_char c = true → query_char c = true.
Proof. destruct c as [[] [] [] [] [] [] [] []]; by vm_compute. Qed.

(** The characters of a text that splits into labels at its dots. *)
Lemma labels_chars (s : string) :
  forallb (all_chars label_char) (split "." s) = true →
  all_chars (fun c => label_char c || Ascii.eqb c ".") s = true.
Proof.
  induction s as [| x s IH]; [done |]. cbn [split all_chars].
  destruct (Ascii.eqb x ".") eqn:Hx.
  - cbn [forallb all_chars]. intros H. rewrite orb_true_r. by apply IH.
  - pose proof (split_not_nil "." s) as Hne.
    destruct (split "." s) as [| w ws]; [done |].
    cbn [forallb all_chars] in *.
    intros [[Hc Hw]%andb_prop Hws]%andb_prop.
    rewrite Hc, orb_false_r. cbn [andb]. apply IH. by rewrite Hw, Hws.
Qed.

Lemma host_labels_chars (s : string) :
  forallb host_label (split "." s) = true →
  all_chars (fun c => label_char c || Ascii.eqb c ".") s = true.
Proof.
  intros H. apply labels_chars.
  rewrite forallb_forall in *. intros l Hl. specialize (H l Hl).
  unfold host_label in H. by apply andb_prop in H as [[_ ?]%andb_prop _].
Qed.

Lemma domain_name_chars (h : string) :
  domain_name h = true →
  none_of authority_end h = true ∧ host_with_space h = false.
Proof.
  unfold domain_name. intros [Hl _]%andb_prop.
  apply host_labels_chars in Hl. split.
  - revert Hl. apply all_chars_none_of. intros c Hc. apply label_char_not_end.
    apply orb_prop in Hc as [-> | ->%Ascii.eqb_eq]; [done | by vm_compute].
  - unfold host_with_space. apply andb_false_intro2, negb_false_iff.
    revert Hl. apply all_chars_none_of. apply label_char_not_space.
Qed.

(** A cluster name in front of the provider's domain is a host name, and
    prints in lower case. *)
Lemma cluster_domain_name (cluster : string) :
  cluster_name cluster = true →
  domain_name (cluster +:+ ".helius-rpc.com") = true
  ∧ lower (cluster +:+ ".helius-rpc.com") = lower cluster +:+ ".helius-rpc.com".
Proof.
  intros Hc. split; [| by rewrite lower_app].
  unfold domain_name. change ".helius-rpc.com" with (String "." "helius-rpc.com").
  rewrite split_app. change (split "." "helius-rpc.com") with ["helius-rpc"; "com"].
  rewrite forallb_app. unfold cluster_name in Hc. rewrite Hc.
  rewrite (app_assoc _ ["helius-rpc"] ["com"]), last_last. done.
Qed.

Lemma stable_path_chars (p : string) :
  stable_path p = true →
  (∃ p', p = String "/" p')
  ∧ none_of path_end p = true
  ∧ all_chars query_char p = true.
Proof.
  unfold stable_path. intros [[Hp Hc]%andb_prop _]%andb_prop.
  split; [| split].
  - destruct p as [| c p']; [done |]. cbn in Hp.
    apply Ascii.eqb_eq in Hp as ->. by eexists.
  - revert Hc. apply all_chars_none_of, path_char_not_end.
  - revert Hc. apply all_chars_impl, path_char_query_char.
Qed.

(** The parser on an https URL made of a host name, a path and a query
    that it leaves as they are. *)
Lemma URL_parse_template (host p q : string) :
  domain_name host = true →
  stable_path p = true →
  all_chars query_char q = true →
  URL_parse ("https://" +:+ host +:+ p +:+ String "?" q)
  = Some (Returned {| href_host := lower host;
                      href_pathname := p;
                      href_search := if truthy_string q then String "?" q else "" |}).
Proof.
  intros Hhost Hp Hq.
  destruct (domain_name_chars host Hhost) as [Hend Hspace].
  destruct (stable_path_chars p Hp) as ([p' ->] & Hpend & _).
  change ("https://" +:+ ?x) with
    (String "h" (String "t" (String "t" (String "p" (String "s"
       (String ":" (String "/" (String "/" x)))))))).
  cbn [URL_parse]. rewrite append_cons.
  rewrite (span_app authority_end host "/" _ Hend eq_refl).
  rewrite Hspace, Hhost. cbn [andb].
  rewrite <- append_cons.
  rewrite (span_app path_end (String "/" p') "?" q Hpend eq_refl).
  cbn [truthy_string].
  rewrite (span_none is_hash q); cbn [fst].
  - by rewrite Hp, Hq.
  - revert Hq. apply all_chars_none_of, query_char_not_hash.
Qed.

(** A space in the host position makes the parser fail. *)
Lemma URL_parse_space (host rest : string) :
  host_with_space host = true →
  URL_parse ("https://" +:+ host +:+ String "/" rest) = Some (Threw TypeError).
Proof.
  intros Hhost.
  assert (none_of authority_end host = true) as Hend.
  { unfold host_with_space in Hhost. apply andb_prop in Hhost as [Hc _].
    revert Hc. apply all_chars_none_of, label_char_not_end. }
  change ("https://" +:+ ?x) with
    (String "h" (String "t" (String "t" (String "p" (String "s"
       (String ":" (String "/" (String "/" x)))))))).
  cbn [URL_parse].
  rewrite (span_app authority_end host "/" _ Hend eq_refl).
  by rewrite Hhost.
Qed.

End Templates.

(** ** Constructors and the dispatcher *)

Section Platform.

Variable upstream : Outbound → Result Response.

Lemma corsHeaders_no_content_type (request : Request) (env : Env) (cors : Headers) :
  corsHeaders request env = Some cors →
  Headers_get cors "Content-Type" = None.
Proof.
  unfold corsHeaders. intros H.
  repeat case_match; try done; by injection H as <-.
Qed.

Lemma Response_new_rejection (cors : Headers) :
  Headers_get cors "Content-Type" = None →
  Response_new (TextBody "Rate limit exceeded") 429 cors
  = Returned {| status := 429;
                res_body := Some "Rate limit exceeded";
                res_headers :=
                  (cors ++ [("Content-Type", "text/plain;charset=UTF-8")])%list |}.
Proof. intros H. unfold Response_new. cbn. by rewrite H. Qed.

Lemma Response_new_relay (res : Response) (cors : Headers) :
  200 <= status res <= 599 →
  (null_body_status (status res) = true → res_body res = None) →
  Response_new (body_stream res) (status res) cors
  = Returned {| status := status res; res_body := res_body res;
                res_headers := cors |}.
Proof.
  intros Hs Hnull. unfold Response_new, body_stream.
  destruct (Z.leb_spec 200 (status res)); [| lia].
  destruct (Z.leb_spec (status res) 599); [| lia]. cbn [andb negb].
  destruct (res_body res) as [b |]; [| done].
  destruct (null_body_status (status res)); [| done]. by specialize (Hnull eq_refl).
Qed.

(** What [new Response] returns has the status, body and headers given,
    but for the content type of a text. *)
Lemma Response_new_returned (b : BodyInit) (s : Z) (h : Headers) (r : Response) :
  Response_new b s h = Returned r →
  status r = s
  ∧ res_body r = match b with
                 | NullBody => None
                 | TextBody t | StreamBody t => Some t
                 end
  ∧ (res_headers r = h ∨ ∃ t, b = TextBody t).
Proof.
  unfold Response_new. intros H.
  repeat case_match; try done; injection H as <-; cbn; eauto.
Qed.

(** The dispatcher, by the request object that it makes. *)
Lemma handleRequest_forward (request : Request) (env : Env) (cors : Headers)
    (w : World) (out : Outbound) :
  outbound request env = Some (Returned out) →
  handleRequest upstream request env cors w
  = Some (match upstream out with
          | Returned res =>
              if isUpgrade request then Returned res
              else Response_new (body_stream res) (status res) cors
          | Threw e => Threw e
          end,
          {| kv := kv w;
             log := (log w ++ (if isUpgrade request then [] else [ReadText])
                           ++ [Fetch out])%list |}).
Proof.
  unfold outbound, handleRequest. intros Hout.
  destruct (isUpgrade request).
  - unfold bind, platform_fetch, bind, construct, emit.
    rewrite Hout. cbn [kv log]. by destruct (upstream out).
  - unfold bind, text, platform_fetch, bind, construct, emit, ret.
    cbn [kv log]. rewrite Hout. cbn [kv log]. rewrite <- app_assoc.
    by destruct (upstream out).
Qed.

Lemma handleRequest_throw (request : Request) (env : Env) (cors : Headers)
    (w : World) (e : Error) :
  outbound request env = Some (Threw e) →
  handleRequest upstream request env cors w
  = Some (Threw e,
          {| kv := kv w;
             log := (log w ++ (if isUpgrade request then [] else [ReadText]))%list |}).
Proof.
  unfold outbound, handleRequest. intros Hout.
  destruct (isUpgrade request).
  - unfold bind, construct. rewrite Hout. rewrite app_nil_r. by destruct w.
  - unfold bind, text, construct, bind, emit, ret. cbn [kv log]. by rewrite Hout.
Qed.

Lemma handleRequest_outside (request : Request) (env : Env) (cors : Headers)
    (w : World) :
  outbound request env = None →
  handleRequest upstream request env cors w = None.
Proof.
  unfold outbound, handleRequest. intros Hout.
  destruct (isUpgrade request).
  - unfold bind, construct. by rewrite Hout.
  - unfold bind, text, construct, bind, emit, ret. cbn [kv log]. by rewrite Hout.
Qed.

(** The dispatcher does the same in every world. *)
Lemma handleRequest_run (request : Request) (env : Env) (cors : Headers) (w : World) :
  handleRequest upstream request env cors w
  = match dispatchOutcome upstream request env cors with
    | Some o =>
        Some (o, {| kv := kv w;
                    log := (log w ++ dispatchTrace upstream request env cors)%list |})
    | None => None
    end.
Proof.
  unfold dispatchOutcome, dispatchTrace.
  destruct (outbound request env) as [[out | e] |] eqn:Hout.
  - by rewrite !(handleRequest_forward _ _ _ _ out Hout).
  - by rewrite !(handleRequest_throw _ _ _ _ e Hout).
  - by rewrite !(handleRequest_outside _ _ _ _ Hout).
Qed.

(** The effects of the dispatcher: the body is read at most once, then the
    upstream is called at most once, and the store is not touched. *)
Lemma dispatchTrace_cases (request : Request) (env : Env) (cors : Headers) :
  let pre := if isUpgrade request then [] else [ReadText] in
  match outbound request env with
  | Some (Returned out) =>
      dispatchTrace upstream request env cors = (pre ++ [Fetch out])%list
  | Some (Threw _) => dispatchTrace upstream request env cors = pre
  | None => dispatchTrace upstream request env cors = []
  end.
Proof.
  unfold dispatchTrace.
  destruct (outbound request env) as [[out | e] |] eqn:Hout.
  - by rewrite (handleRequest_forward _ _ _ _ out Hout).
  - by rewrite (handleRequest_throw _ _ _ _ e Hout).
  - by rewrite (handleRequest_outside _ _ _ _ Hout).
Qed.

Lemma body_stream_returned (res r : Response) (s : Z) (h : Headers) :
  Response_new (body_stream res) s h = Returned r →
  status r = s ∧ res_body r = res_body res ∧ res_headers r = h.
Proof.
  intros H. destruct (Response_new_returned _ _ _ _ H) as (Hs & Hb & Hh).
  split; [done |]. unfold body_stream in *.
  destruct (res_body res); (split; [done |]); by destruct Hh as [? | [? ?]].
Qed.

(** What a run of the dispatcher leaves: the store as it was, the trace
    of the request, and as answer only what the upstream sent. *)
Lemma handleRequest_inv (request : Request) (env : Env) (cors : Headers)
    (w : World) (o : Result Response) (w' : World) :
  handleRequest upstream request env cors w = Some (o, w') →
  kv w' = kv w
  ∧ log w' = (log w ++ dispatchTrace upstream request env cors)%list
  ∧ ∀ r, o = Returned r →
      ∃ out res,
        outbound request env = Some (Returned out)
        ∧ upstream out = Returned res
        ∧ dispatchTrace upstream request env cors
          = ((if isUpgrade request then [] else [ReadText]) ++ [Fetch out])%list
        ∧ status r = status res
        ∧ res_body r = res_body res
        ∧ (if isUpgrade request then r = res else res_headers r = cors).
Proof.
  intros Hh. pose proof (dispatchTrace_cases request env cors) as Ht.
  cbv zeta in Ht.
  destruct (outbound request env) as [[out | e] |] eqn:Hout.
  - rewrite (handleRequest_forward _ _ _ _ out Hout) in Hh.
    injection Hh as <- <-. cbn [kv log]. rewrite Ht.
    split; [done |]. split; [done |]. intros r Hr.
    destruct (upstream out) as [res | e] eqn:Hres; [| done].
    exists out, res. split; [done |]. split; [done |]. split; [done |].
    destruct (isUpgrade request).
    + by injection Hr as ->.
    + by destruct (body_stream_returned _ _ _ _ Hr) as (? & ? & ?).
  - rewrite (handleRequest_throw _ _ _ _ e Hout) in Hh.
    injection Hh as <- <-. cbn [kv log]. by rewrite Ht.
  - by rewrite (handleRequest_outside _ _ _ _ Hout) in Hh.
Qed.

Lemma handleRequest_is_Some (request : Request) (env : Env) (cors : Headers)
    (w : World) :
  is_Some (handleRequest upstream request env cors w)
  ↔ is_Some (outbound request env).
Proof.
  destruct (outbound request env) as [[out | e] |] eqn:Hout.
  - rewrite (handleRequest_forward _ _ _ _ out Hout). split; eauto.
  - rewrite (handleRequest_throw _ _ _ _ e Hout). split; eauto.
  - rewrite (handleRequest_outside _ _ _ _ Hout). done.
Qed.

Lemma dispatchOutcome_forwardable (request : Request) (env : Env) (cors : Headers) :
  forwardable request env →
  is_Some (dispatchOutcome upstream request env cors).
Proof.
  intros [out Hout]. unfold dispatchOutcome.
  rewrite (handleRequest_forward _ _ _ _ out Hout). by eexists.
Qed.

Lemma dispatchTrace_no_kv (request : Request) (env : Env) (cors : Headers) :
  forallb (fun e => negb (is_kv_event e))
          (dispatchTrace upstream request env cors) = true.
Proof.
  pose proof (dispatchTrace_cases request env cors) as H. cbv zeta in H.
  destruct (outbound request env) as [[out | e] |]; rewrite H;
    by destruct (isUpgrade request).
Qed.

Lemma upstream_calls_app (l1 l2 : list event) :
  upstream_calls (l1 ++ l2) = (upstream_calls l1 + upstream_calls l2)%nat.
Proof.
  induction l1 as [| e l1 IH]; [done |].
  destruct e; cbn [app upstream_calls]; by rewrite IH.
Qed.

Lemma upstream_calls_dispatch (request : Request) (env : Env) (cors : Headers) :
  forwardable request env →
  upstream_calls (dispatchTrace upstream request env cors) = 1%nat.
Proof.
  intros [out Hout].
  pose proof (dispatchTrace_cases request env cors) as H. cbv zeta in H.
  rewrite Hout in H. rewrite H. by destruct (isUpgrade request).
Qed.

(** The request objects of the two paths, for inbound requests inside the
    fragment of the URL parser. *)
Lemma sendable_body (request : Request) :
  sendable request = true →
  known_method (method request) = true
  ∧ get_or_head (method request) && non_null (body request) = false
  ∧ get_or_head (method request)
    && non_null (if truthy_string (bodyText request)
                 then Some (bodyText request) else None) = false.
Proof.
  unfold sendable. intros [Hk Hb]%andb_prop. apply negb_true_iff in Hb.
  split; [done |]. split; [done |].
  destruct (get_or_head (method request)); [| done]. cbn [andb] in *.
  unfold bodyText. by destruct (body request).
Qed.

Lemma proxyRequest_built (request : Request) (env : Env) :
  sendable request = true →
  stable_path (pathname (url request)) = true →
  (pathname (url request) = "/" → cluster_name (CLUSTER request) = true) →
  all_chars query_char (ToString_opt (Env.HELIUS_API_KEY env)) = true →
  all_chars query_char (search (url request)) = true →
  proxyRequest request env (bodyText request)
  = Some (Returned
      {| out_url :=
           {| href_host := upstreamHost (pathname (url request)) (CLUSTER request);
              href_pathname := pathname (url request);
              href_search :=
                "?api-key=" +:+ ToString_opt (Env.HELIUS_API_KEY env)
                +:+ match search (url request) with
                    | EmptyString => ""
                    | String _ q => "&" +:+ q
                    end |};
         out_method := method request;
         out_headers := [("Content-Type", "application/json");
                         ("X-Helius-Cloudflare-Proxy", "true")];
         out_body := if truthy_string (bodyText request)
                     then Some (bodyText request) else None |}).
Proof.
  intros Hsend Hpath Hcluster Hkey Hsearch.
  destruct (sendable_body request Hsend) as (Hknown & _ & Hbody).
  set (tail := match search (url request) with
               | EmptyString => ""
               | String _ q => "&" +:+ q
               end).
  set (host := if String.eqb (pathname (url request)) "/"
               then CLUSTER request +:+ ".helius-rpc.com" else "api.helius.xyz").
  assert (domain_name host = true
          ∧ lower host = upstreamHost (pathname (url request)) (CLUSTER request))
    as [Hhost Hlower].
  { unfold host, upstreamHost.
    destruct (String.eqb_spec (pathname (url request)) "/") as [Hroot | _]; [| done].
    by apply cluster_domain_name, Hcluster. }
  assert (all_chars query_char
            ("api-key=" +:+ ToString_opt (Env.HELIUS_API_KEY env) +:+ tail) = true)
    as Hq.
  { rewrite !all_chars_app, Hkey. cbn [andb].
    change (all_chars query_char "api-key=") with true. cbn [andb].
    unfold tail. destruct (search (url request)) as [| c q]; [done |].
    cbn [all_chars] in Hsearch. apply andb_prop in Hsearch as [_ Hsearch].
    by rewrite all_chars_app, Hsearch. }
  assert (proxyUrl request env
          = "https://" +:+ host +:+ pathname (url request)
            +:+ String "?" ("api-key=" +:+ ToString_opt (Env.HELIUS_API_KEY env)
                            +:+ tail)) as Hurl.
  { unfold proxyUrl, tail. fold host.
    by destruct (search (url request)). }
  unfold proxyRequest, Request_new. rewrite Hurl.
  rewrite (URL_parse_template host _ _ Hhost Hpath Hq).
  cbn [proxyInit init_method init_body init_headers].
  rewrite Hknown, Hbody, Hlower. cbn [negb].
  repeat f_equal.
Qed.

Lemma websocketRequest_built (request : Request) (env : Env) :
  sendable request = true →
  cluster_name (CLUSTER request) = true →
  all_chars query_char (ToString_opt (Env.HELIUS_API_KEY env)) = true →
  websocketRequest request env
  = Some (Returned
      {| out_url :=
           {| href_host := lower (CLUSTER request) +:+ ".helius-rpc.com";
              href_pathname := "/";
              href_search := "?api-key=" +:+ ToString_opt (Env.HELIUS_API_KEY env) |};
         out_method := method request;
         out_headers := headers request;
         out_body := body request |}).
Proof.
  intros Hsend Hcluster Hkey.
  destruct (sendable_body request Hsend) as (Hknown & Hbody & _).
  destruct (cluster_domain_name _ Hcluster) as [Hhost Hlower].
  assert (websocketUrl request env
          = "https://" +:+ (CLUSTER request +:+ ".helius-rpc.com") +:+ "/"
            +:+ String "?" ("api-key=" +:+ ToString_opt (Env.HELIUS_API_KEY env)))
    as Hurl.
  { unfold websocketUrl. f_equal. norm_append. }
  unfold websocketRequest, Request_from. rewrite Hurl.
  rewrite (URL_parse_template _ "/" _ Hhost eq_refl).
  - by rewrite Hknown, Hbody, Hlower.
  - rewrite all_chars_app, Hkey. done.
Qed.

End Platform.
(** ** The rate limiter *)

Section RateLimiter.

Variable now : Z.
Variable upstream : Outbound → Result Response.

Lemma round_double_upto (z : Z) : 0 <= z <= 2 ^ 53 → round_double z = Fin z.
Proof.
  intros Hz. destruct (decide (z = 2 ^ 53)) as [-> | Hne].
  - by vm_compute.
  - apply round_double_safe. lia.
Qed.

Lemma round_double_not_NaN (z : Z) : round_double z ≠ NaN.
Proof. unfold round_double. by repeat case_match. Qed.

(** Reading back a count that was printed in decimal. *)
Lemma countOf_pretty (z : Z) : countOf (Some (pretty z)) = round_double z.
Proof.
  unfold countOf. pose proof (parseInt_pretty z) as Hp.
  destruct (pretty z) eqn:E; [| done].
  exfalso. by apply (round_double_not_NaN z).
Qed.

(** The two outcomes of a request that reaches the limiter. *)
Lemma fetch_limited (request : Request) (env : Env) (w : World) (cors : Headers) :
  corsHeaders request env = Some cors →
  method request ≠ "OPTIONS" →
  includes (whitelistedIps env) (clientIdentifier request) = false →
  let key := windowKey now request env in
  let count := countOf (kv_lookup now (kv w) key) in
  fetch now upstream request env w =
    if number_ge count (RATE_LIMIT_MAX_REQUESTS env) then
      Some (Returned
              {| status := 429;
                 res_body := Some "Rate limit exceeded";
                 res_headers :=
                   (cors ++ [("Content-Type", "text/plain;charset=UTF-8")])%list |},
            {| kv := kv w; log := (log w ++ [KVGet key])%list |})
    else
      handleRequest upstream request env cors
        {| kv := <[key := (Number_toString (number_add count 1), now + 60 * 1000)]> (kv w);
           log := (log w ++ [KVGet key;
                             KVPut key (Number_toString (number_add count 1)) 60])%list |}.
Proof.
  intros Hcors Hm Hwl key count.
  apply String.eqb_neq in Hm.
  unfold fetch, KV_get, KV_put, bind, lift, emit, ret, construct.
  rewrite Hcors, Hm, Hwl. cbn [kv log]. fold key. fold count.
  rewrite (Response_new_rejection cors
             (corsHeaders_no_content_type request env cors Hcors)).
  destruct (number_ge count _); [done |].
  cbn [kv log]. by rewrite <- app_assoc.
Qed.

(** C1. A request that is neither allow-listed nor a preflight is decided
    by the stored count [c] of its window key against the configured
    maximum [m]: when [c >= m] the answer is 429 "Rate limit exceeded" with
    the computed CORS headers (and the content type of the text) and the
    store is only read; when [c < m] the count plus one is written under the
    same key (and reads back as such until it expires) and the request goes
    to the dispatcher.  An absent entry counts as 0. *)
Theorem rate_limiter_admission
    (request : Request) (env : Env) (w : World) (cors : Headers) (m c : Z) :
  corsHeaders request env = Some cors →
  method request ≠ "OPTIONS" →
  includes (whitelistedIps env) (clientIdentifier request) = false →
  RATE_LIMIT_MAX_REQUESTS env = Fin m →
  countOf (kv_lookup now (kv w) (windowKey now request env)) = Fin c →
  0 <= c < 2 ^ 53 →
  let key := windowKey now request env in
  let written := <[key := (pretty (c + 1), now + 60 * 1000)]> (kv w) in
  (m <= c →
     ∃ r, fetch now upstream request env w
          = Some (Returned r, {| kv := kv w; log := (log w ++ [KVGet key])%list |})
          ∧ status r = 429
          ∧ res_body r = Some "Rate limit exceeded"
          ∧ res_headers r
            = (cors ++ [("Content-Type", "text/plain;charset=UTF-8")])%list)
  ∧ (c < m →
     fetch now upstream request env w
     = handleRequest upstream request env cors
         {| kv := written;
            log := (log w ++ [KVGet key; KVPut key (pretty (c + 1)) 60])%list |}
     ∧ ∀ later, later < now + 60 * 1000 →
         countOf (kv_lookup later written key) = Fin (c + 1))
  ∧ (kv_lookup now (kv w) key = None → c = 0).
Proof.
  intros Hcors Hm Hwl Hmax Hc Hrange key written.
  pose proof (fetch_limited request env w cors Hcors Hm Hwl) as Hf.
  cbv zeta in Hf. fold key in Hf, Hc. rewrite Hc, Hmax in Hf.
  assert (number_add (Fin c) 1 = Fin (c + 1)) as Hadd.
  { cbn [number_add]. apply round_double_upto. lia. }
  assert (Number_toString (Fin (c + 1)) = pretty (c + 1)) as Hstr.
  { apply Number_toString_upto. lia. }
  rewrite Hadd, Hstr in Hf. cbn [number_ge] in Hf.
  split; [| split].
  - intros Hge. destruct (Z.leb_spec m c); [| lia].
    eexists. split; [exact Hf |]. done.
  - intros Hlt. destruct (Z.leb_spec m c); [lia |]. split; [done |].
    intros later Hlater. unfold kv_lookup, written.
    rewrite lookup_insert_eq.
    destruct (Z.ltb_spec later (now + 60 * 1000)); [| lia].
    rewrite countOf_pretty. apply round_double_upto. lia.
  - intros Hnone. rewrite Hnone in Hc. simpl in Hc. congruence.
Qed.

End RateLimiter.
(** ** The dispatcher *)

Section Dispatcher.

Variable upstream : Outbound → Result Response.

Lemma isUpgrade_truthy (request : Request) :
  isUpgrade request = truthy (upgradeHeader request).
Proof.
  unfold isUpgrade. destruct (upgradeHeader request) as [v |]; [| done].
  destruct v; [done |]. done.
Qed.

(** C6 (as amended). A request whose [Upgrade] header has any non-empty
    value, "websocket" or another, is handed to the platform as it came:
    same method, headers and body, no body read.  For a cluster value made
    of labels of letters, digits and hyphens the URL has the host of that
    cluster, in lower case, the root path and the credential as [api-key].
    The upstream's answer is returned as it is; when the platform's [fetch]
    fails, the request fails with its error. *)
Theorem upgrade_passthrough
    (request : Request) (env : Env) (cors : Headers) (w : World) (v : string) :
  upgradeHeader request = Some v →
  v ≠ "" →
  sendable request = true →
  cluster_name (CLUSTER request) = true →
  all_chars query_char (ToString_opt (Env.HELIUS_API_KEY env)) = true →
  let out :=
    {| out_url :=
         {| href_host := lower (CLUSTER request) +:+ ".helius-rpc.com";
            href_pathname := "/";
            href_search := "?api-key=" +:+ ToString_opt (Env.HELIUS_API_KEY env) |};
       out_method := method request;
       out_headers := headers request;
       out_body := body request |} in
  handleRequest upstream request env cors w
  = Some (upstream out, {| kv := kv w; log := (log w ++ [Fetch out])%list |}).
Proof.
  intros Hv Hne Hsend Hcluster Hkey out.
  assert (isUpgrade request = true) as Hu.
  { rewrite isUpgrade_truthy, Hv. by destruct v. }
  rewrite (handleRequest_forward upstream request env cors w out).
  - rewrite Hu. by destruct (upstream out).
  - unfold outbound. rewrite Hu. by apply websocketRequest_built.
Qed.

End Dispatcher.
(** ** The allow-list gate *)

Section AllowList.

Variable now : Z.
Variable upstream : Outbound → Result Response.

Lemma includes_In (l : list string) (x : string) :
  includes l x = true ↔ In x l.
Proof.
  unfold includes. rewrite existsb_exists. split.
  - intros (y & Hy & Heq). apply String.eqb_eq in Heq. by subst.
  - intros Hx. exists x. split; [done | apply String.eqb_refl].
Qed.

Lemma clientIdentifier_nonempty (request : Request) :
  clientIdentifier request ≠ "".
Proof.
  unfold clientIdentifier, or_string.
  destruct (Headers_get _ _) as [[| c s] |]; done.
Qed.

Lemma fetch_preflight (request : Request) (env : Env) (w : World) (cors : Headers) :
  corsHeaders request env = Some cors →
  method request = "OPTIONS" →
  fetch now upstream request env w
  = Some (Returned {| status := 200; res_body := None; res_headers := cors |}, w).
Proof.
  intros Hcors Hm. unfold fetch, bind, lift, construct.
  by rewrite Hcors, Hm.
Qed.

Lemma fetch_whitelisted (request : Request) (env : Env) (w : World) (cors : Headers) :
  corsHeaders request env = Some cors →
  includes (whitelistedIps env) (clientIdentifier request) = true →
  fetch now upstream request env w
  = if String.eqb (method request) "OPTIONS"
    then Some (Returned {| status := 200; res_body := None; res_headers := cors |}, w)
    else handleRequest upstream request env cors w.
Proof.
  intros Hcors Hwl. unfold fetch, bind, lift, construct.
  rewrite Hcors, Hwl. by destruct (String.eqb _ _).
Qed.

(** C2. A client identity that occurs in the comma-separated allow-list is
    served without the rate limiter: the request is answered as a preflight
    or handed to the dispatcher in the world as it was.  Whatever the
    counters hold, the store is left as it was, no KV operation is
    performed, and an answer is the preflight answer or has the upstream's
    status and body; there is an outcome whenever the dispatcher has one.
    With no allow-list configured no identity is exempt. *)
Theorem allow_list_bypass
    (request : Request) (env : Env) (w : World) (cors : Headers) :
  corsHeaders request env = Some cors →
  (∀ ips : string,
     Env.WHITELISTED_IPS env = Some ips →
     In (clientIdentifier request) (split "," ips) →
     fetch now upstream request env w
     = (if String.eqb (method request) "OPTIONS"
        then Some (Returned {| status := 200; res_body := None;
                               res_headers := cors |}, w)
        else handleRequest upstream request env cors w)
     ∧ (method request = "OPTIONS" ∨ is_Some (outbound request env) →
        is_Some (fetch now upstream request env w))
     ∧ ∀ o w',
         fetch now upstream request env w = Some (o, w') →
         kv w' = kv w
         ∧ ∃ ext,
             log w' = (log w ++ ext)%list
             ∧ forallb (fun e => negb (is_kv_event e)) ext = true
             ∧ (method request = "OPTIONS"
                ∧ o = Returned {| status := 200; res_body := None;
                                  res_headers := cors |}
                ∨ method request ≠ "OPTIONS"
                  ∧ handleRequest upstream request env cors w = Some (o, w')
                  ∧ ∀ r, o = Returned r →
                      ∃ out res, In (Fetch out) ext
                                 ∧ upstream out = Returned res
                                 ∧ status r = status res
                                 ∧ res_body r = res_body res))
  ∧ (Env.WHITELISTED_IPS env = None →
     includes (whitelistedIps env) (clientIdentifier request) = false).
Proof.
  intros Hcors. split; [| intros Hnone; unfold whitelistedIps; by rewrite Hnone].
  intros ips Hips Hin.
  assert (includes (whitelistedIps env) (clientIdentifier request) = true) as Hwl.
  { apply includes_In. unfold whitelistedIps. rewrite Hips.
    destruct ips as [| c ips']; [| done].
    simpl in Hin. destruct Hin as [Hin | []].
    by destruct (clientIdentifier_nonempty request). }
  rewrite (fetch_whitelisted request env w cors Hcors Hwl).
  split; [done |].
  destruct (String.eqb_spec (method request) "OPTIONS") as [Hm | Hm].
  - split; [eauto |]. intros o w' [= <- <-]. split; [done |].
    exists []. rewrite app_nil_r. eauto.
  - split.
    { intros [? | Hout]; [done |]. by apply handleRequest_is_Some. }
    intros o w' Hh.
    destruct (handleRequest_inv upstream request env cors w o w' Hh)
      as (Hkv & Hlog & Hret).
    split; [done |]. eexists. split; [exact Hlog |].
    split; [apply dispatchTrace_no_kv |].
    right. split; [done |]. split; [done |]. intros r Hr.
    destruct (Hret r Hr) as (out & res & _ & Hres & Ht & Hs & Hb & _).
    exists out, res. rewrite Ht. rewrite in_app_iff. cbn [In]. eauto 10.
Qed.

End AllowList.
(** ** The relayed response *)

Section Relay.

Variable upstream : Outbound → Result Response.

(** C7 (as amended). On the regular (non-upgrade) path a response handed
    back is the relay of an upstream answer: the upstream was called once
    after the body was read, and the response has the upstream's status and
    body and exactly the CORS headers computed before, so that none of the
    upstream's own headers reaches it.  The relay takes place whenever the
    request object can be made and the upstream answers with a status of
    200 to 599 (and no body on a null body status); on a status outside 200
    to 599 the request fails with a RangeError.  Seen from [fetch]: the
    headers of every answer to a non-upgrade request are the computed CORS
    headers, with the content type of the text on the 429. *)
Theorem proxied_response_relay (request : Request) (env : Env) (cors : Headers) :
  isUpgrade request = false →
  (∀ (w : World) (o : Result Response) (w' : World),
     handleRequest upstream request env cors w = Some (o, w') →
     ∀ r, o = Returned r →
       ∃ out res,
         log w' = (log w ++ [ReadText; Fetch out])%list
         ∧ upstream out = Returned res
         ∧ status r = status res
         ∧ res_body r = res_body res
         ∧ res_headers r = cors)
  ∧ (∀ (w : World) (out : Outbound) (res : Response),
       proxyRequest request env (bodyText request) = Some (Returned out) →
       upstream out = Returned res →
       200 <= status res <= 599 →
       (null_body_status (status res) = true → res_body res = None) →
       handleRequest upstream request env cors w
       = Some (Returned {| status := status res;
                           res_body := res_body res;
                           res_headers := cors |},
               {| kv := kv w; log := (log w ++ [ReadText; Fetch out])%list |}))
  ∧ (∀ (w : World) (out : Outbound) (res : Response),
       proxyRequest request env (bodyText request) = Some (Returned out) →
       upstream out = Returned res →
       ¬ 200 <= status res <= 599 →
       handleRequest upstream request env cors w
       = Some (Threw RangeError,
               {| kv := kv w; log := (log w ++ [ReadText; Fetch out])%list |}))
  ∧ (∀ (now : Z) (w : World) (r : Response) (w' : World),
       corsHeaders request env = Some cors →
       fetch now upstream request env w = Some (Returned r, w') →
       res_headers r = cors
       ∨ status r = 429
         ∧ res_headers r
           = (cors ++ [("Content-Type", "text/plain;charset=UTF-8")])%list).
Proof.
  intros Hu. split; [| split; [| split]].
  - intros w o w' Hh r Hr.
    destruct (handleRequest_inv upstream request env cors w o w' Hh)
      as (_ & Hlog & Hret).
    destruct (Hret r Hr) as (out & res & _ & Hres & Ht & Hs & Hb & Hh').
    rewrite Hu in Ht, Hh'. exists out, res. by rewrite Hlog, Ht.
  - intros w out res Hout Hres Hs Hnull.
    rewrite (handleRequest_forward upstream request env cors w out).
    + by rewrite Hres, Hu, Response_new_relay.
    + unfold outbound. by rewrite Hu.
  - intros w out res Hout Hres Hs.
    rewrite (handleRequest_forward upstream request env cors w out).
    + rewrite Hres, Hu. unfold Response_new.
      destruct (Z.leb_spec 200 (status res)); [| done].
      destruct (Z.leb_spec (status res) 599); [lia | done].
    + unfold outbound. by rewrite Hu.
  - intros now w r w' Hcors Hf.
    assert (∀ w0, handleRequest upstream request env cors w0 = Some (Returned r, w') →
                  res_headers r = cors) as Hrelay.
    { intros w0 Hh.
      destruct (handleRequest_inv upstream request env cors w0 _ w' Hh)
        as (_ & _ & Hret).
      destruct (Hret r eq_refl) as (out & res & _ & _ & _ & _ & _ & Hh').
      by rewrite Hu in Hh'. }
    destruct (includes (whitelistedIps env) (clientIdentifier request)) eqn:Hwl.
    + rewrite (fetch_whitelisted now upstream request env w cors Hcors Hwl) in Hf.
      destruct (String.eqb _ _).
      * injection Hf as <- <-. by left.
      * left. by apply (Hrelay w).
    + destruct (String.eqb_spec (method request) "OPTIONS") as [Hm | Hm].
      * rewrite (fetch_preflight now upstream request env w cors Hcors Hm) in Hf.
        injection Hf as <- <-. by left.
      * rewrite (fetch_limited now upstream request env w cors Hcors Hm Hwl) in Hf.
        cbv zeta in Hf. destruct (number_ge _ _).
        -- injection Hf as <- <-. by right.
        -- left. by apply (Hrelay _ Hf).
Qed.

End Relay.
(** ** The window key *)

Section WindowKey.

Lemma window_floor_div (now W : Z) :
  W ≠ 0 → window_floor now W = now / (W * 1000).
Proof.
  intros HW. unfold window_floor, unix_time_seconds.
  destruct W as [| p | p]; [done | |].
  - cbn. f_equal; lia.
  - cbn. rewrite <- (Z.div_opp_opp now) by lia. f_equal; lia.
Qed.

Lemma time_window_nonzero (env : Env) : RATE_LIMIT_TIME_WINDOW env ≠ Fin 0.
Proof.
  unfold RATE_LIMIT_TIME_WINDOW, or_number.
  destruct (parseInt _) as [| | | z] eqn:E; cbn; try done.
  destruct (Z.eqb_spec z 0); cbn; congruence.
Qed.

Lemma currentTime_finite (now : Z) (env : Env) (W : Z) :
  RATE_LIMIT_TIME_WINDOW env = Fin W →
  Z.abs W * 1000 < 2 ^ 53 →
  W ≠ 0 ∧ currentTime now env = Fin (now / (W * 1000)).
Proof.
  intros HW Hsafe.
  assert (W ≠ 0) as Hnz.
  { intros ->. by apply (time_window_nonzero env). }
  split; [done |].
  unfold currentTime. rewrite HW. cbn [number_mul].
  rewrite round_double_safe by lia.
  unfold floor_div. destruct (W * 1000) eqn:E; [lia | done | done].
Qed.

Lemma window_index_bound (now d : Z) :
  0 <= now → d ≠ 0 → Z.abs (now / d) <= now.
Proof. intros Hn Hd. Z.div_mod_to_equations. nia. Qed.

(** C3. The window key is the client identity, a colon and the decimal
    text of floor(seconds / window length), the seconds being the clock's
    milliseconds over 1000 (whole seconds give the same floor for a positive
    length); for one identity two keys are equal exactly when the two floor
    values are. *)
Theorem window_key_is_floor
    (now : Z) (request : Request) (env : Env) (W : Z) :
  RATE_LIMIT_TIME_WINDOW env = Fin W →
  Z.abs W * 1000 < 2 ^ 53 →
  0 <= now < 2 ^ 53 →
  windowKey now request env
  = clientIdentifier request +:+ ":" +:+ pretty (window_floor now W)
  ∧ (0 < W → window_floor now W = now / 1000 / W)
  ∧ ∀ (now' : Z) (request' : Request),
      0 <= now' < 2 ^ 53 →
      clientIdentifier request' = clientIdentifier request →
      (windowKey now' request' env = windowKey now request env
       ↔ window_floor now' W = window_floor now W).
Proof.
  intros HW Hsafe Hnow.
  assert (∀ t r, 0 <= t < 2 ^ 53 →
            windowKey t r env
            = clientIdentifier r +:+ ":" +:+ pretty (window_floor t W)) as Hkey.
  { intros t r Ht.
    destruct (currentTime_finite t env W HW Hsafe) as [Hnz Hct].
    unfold windowKey. rewrite Hct, window_floor_div by done.
    rewrite Number_toString_small; [done |].
    pose proof (window_index_bound t (W * 1000) ltac:(lia) ltac:(lia)). lia. }
  split; [by apply Hkey |]. split.
  { intros HW0. rewrite window_floor_div by lia.
    rewrite Z.div_div by lia. f_equal. lia. }
  intros now' request' Hnow' Hid. rewrite !Hkey by done. rewrite Hid.
  split.
  - intros Heq. apply (inj (String.app _)) in Heq.
    apply (inj (String.app _)) in Heq. by apply (inj pretty) in Heq.
  - by intros ->.
Qed.

End WindowKey.

(** ** The origin validator *)

Section OriginValidator.

Import RegExp.

Lemma domainPattern_cons_dot (d : string) :
  domainPattern (String "." d) = String "\" (String "." (domainPattern d)).
Proof. reflexivity. Qed.

Lemma domainPattern_cons_star (d : string) :
  domainPattern (String "*" d) = "[a-zA-Z0-9-]+" +:+ domainPattern d.
Proof. reflexivity. Qed.

Lemma domainPattern_cons_other (c : ascii) (d : string) :
  Ascii.eqb c "." = false → Ascii.eqb c "*" = false →
  domainPattern (String c d) = String c (domainPattern d).
Proof.
  intros H1 H2. unfold domainPattern. cbn [replace_all].
  rewrite H1. cbn [replace_all]. by rewrite H2.
Qed.

Lemma parse_plain_char (c : ascii) (src : string) :
  syntax_char c = false →
  parse_from 0 (String c src) = cons (Chr c) <$> parse_from 0 src.
Proof.
  intros Hc. unfold syntax_char in Hc. cbn [existsb] in Hc.
  repeat (apply orb_false_elim in Hc as [? Hc]).
  cbn [parse_from].
  replace (Ascii.eqb c "^") with false by done.
  replace (Ascii.eqb c "$") with false by done.
  replace (Ascii.eqb c "\") with false by done.
  replace (Ascii.eqb c "[") with false by done.
  unfold syntax_char. cbn [existsb].
  repeat match goal with H : Ascii.eqb c _ = false |- _ => rewrite H; clear H end.
  done.
Qed.

Lemma parse_domainPattern (domain : string) :
  host_pattern domain = true →
  parse_from 0 (domainPattern domain +:+ "$") = Some (atoms_of domain ++ [Eol])%list.
Proof.
  induction domain as [| c d IH]; [done |].
  intros Hp. cbn [host_pattern all_chars] in Hp.
  apply andb_prop in Hp as [Hc Hd]. specialize (IH Hd).
  destruct (Ascii.eqb_spec c ".") as [-> | Hdot].
  { rewrite domainPattern_cons_dot, !append_cons.
    cbn -[domainPattern]. by rewrite IH. }
  destruct (Ascii.eqb_spec c "*") as [-> | Hstar].
  { rewrite domainPattern_cons_star, !append_cons, append_nil.
    cbn -[domainPattern]. by rewrite prefix_empty, IH. }
  apply Ascii.eqb_neq in Hdot, Hstar.
  rewrite domainPattern_cons_other by done.
  unfold pattern_char in Hc. rewrite Hdot, Hstar, !orb_false_r in Hc.
  apply negb_true_iff in Hc.
  rewrite append_cons, parse_plain_char by done.
  cbn [atoms_of]. rewrite Hstar. by rewrite IH.
Qed.

Lemma parse_regexPattern (domain : string) :
  host_pattern domain = true →
  parse (regexPattern domain) = Some (Bol :: atoms_of domain ++ [Eol])%list.
Proof.
  intros Hp. unfold parse, regexPattern.
  rewrite append_cons, append_nil. cbn -[domainPattern].
  by rewrite (parse_domainPattern domain Hp).
Qed.

Lemma match_here_plus_cons (r : RegExp.t) (b : bool) (x : ascii) (s : string) :
  match_here (LabelPlus :: r) b (String x s)
  = in_label_class x && (match_here r false s || match_here (LabelPlus :: r) b s).
Proof. reflexivity. Qed.

Lemma match_here_plus (r : RegExp.t) (b : bool) (s : string) :
  match_here (LabelPlus :: r) b s = true
  ↔ ∃ seg s', seg ≠ "" ∧ all_chars in_label_class seg = true
              ∧ s = seg +:+ s' ∧ match_here r false s' = true.
Proof.
  induction s as [| x s IH].
  - split; [done |]. intros (seg & s' & Hne & _ & Heq & _). by destruct seg.
  - rewrite match_here_plus_cons, andb_true_iff, orb_true_iff, IH. split.
    + intros [Hx [Hr | (seg & s' & Hne & Hall & -> & Hr)]].
      * exists (String x ""), s. cbn [all_chars]. by rewrite Hx.
      * exists (String x seg), s'. cbn [all_chars]. by rewrite Hx, Hall.
    + intros (seg & s' & Hne & Hall & Heq & Hr).
      destruct seg as [| y seg]; [done |].
      rewrite append_cons in Heq. injection Heq as <- ->.
      cbn [all_chars] in Hall. apply andb_prop in Hall as [Hy Hall].
      split; [done |].
      destruct seg as [| z seg]; [by left |].
      right. by exists (String z seg), s'.
Qed.

(** The matcher on a translated pattern decides [wildcard_match]. *)
Lemma match_here_atoms (domain : string) : ∀ (b : bool) (s : string),
  match_here (atoms_of domain ++ [Eol])%list b s = true
  ↔ wildcard_match domain s.
Proof.
  induction domain as [| c d IH]; intros b s.
  - cbn. destruct s; split; try done; [constructor | inversion 1].
  - cbn [atoms_of app]. destruct (Ascii.eqb_spec c "*") as [-> | Hc].
    + rewrite match_here_plus. split.
      * intros (seg & s' & Hne & Hall & -> & Hr). apply IH in Hr.
        by constructor.
      * inversion 1 as [| ? ? ? Hstar | ? seg s' Hne Hall Hm]; subst; [done |].
        exists seg, s'. repeat split; try done. by apply IH.
    + cbn [match_here]. destruct s as [| x s].
      * split; [done | inversion 1; by subst].
      * rewrite andb_true_iff, IH. split.
        -- intros [Hx Hm]. apply Ascii.eqb_eq in Hx as <-. by constructor.
        -- inversion 1; subst; [| done]. split; [apply Ascii.eqb_refl | done].
Qed.

Lemma match_later_Bol (r : RegExp.t) (s : string) :
  match_later (Bol :: r) s = false.
Proof. induction s as [| x s IH]; [done |]. cbn. exact IH. Qed.

(** For a host pattern the test is the anchored, case-sensitive, whole
    string match of the pattern against the origin. *)
Lemma test_regexPattern (domain origin : string) :
  host_pattern domain = true →
  ∃ b, RegExp.test (regexPattern domain) origin = Some b
       ∧ (b = true ↔ wildcard_match domain origin).
Proof.
  intros Hp. unfold RegExp.test. rewrite (parse_regexPattern domain Hp).
  eexists. split; [reflexivity |].
  unfold exec. rewrite match_later_Bol, orb_false_r.
  cbn [match_here andb]. apply match_here_atoms.
Qed.

Lemma isWhitelisted_spec (domains : list string) (origin : string) :
  forallb host_pattern domains = true →
  ∃ b, isWhitelisted domains origin = Some b
       ∧ (b = true ↔ ∃ domain, In domain domains ∧ wildcard_match domain origin).
Proof.
  induction domains as [| d ds IH]; intros Hall.
  - exists false. split; [done |]. split; [done | by intros (? & [] & _)].
  - cbn [forallb] in Hall. apply andb_prop in Hall as [Hd Hds].
    destruct (test_regexPattern d origin Hd) as (b & Ht & Hb).
    destruct (IH Hds) as (b' & Hw & Hb').
    unfold isWhitelisted in *. cbn [some]. rewrite Ht.
    destruct b.
    + exists true. split; [done |]. split; [| done].
      intros _. exists d. split; [by left | by apply Hb].
    + exists b'. split; [done |]. rewrite Hb'. split.
      * intros (x & Hx & Hm). exists x. split; [by right | done].
      * intros (x & [<- | Hx] & Hm); [| by exists x].
        apply Hb in Hm. done.
Qed.

End OriginValidator.

Section OriginExamples.

Lemma wildcard_match_test (domain origin : string) (b : bool) :
  host_pattern domain = true →
  RegExp.test (regexPattern domain) origin = Some b →
  (b = true ↔ wildcard_match domain origin).
Proof.
  intros Hp Ht. destruct (test_regexPattern domain origin Hp) as (b' & Ht' & Hb).
  congruence.
Qed.

(** Refute a match of a closed pattern by running the test. *)
Ltac no_match :=
  match goal with
  | Hm : wildcard_match ?d ?o |- _ =>
      let H := fresh in
      assert (false = true) as H
        by (apply (proj2 (wildcard_match_test d o false eq_refl eq_refl)), Hm);
      discriminate H
  end.

(** C4 (as stated): with the patterns [*.example.com] and
    [app.example.com] configured, the origin [https://app.example.com]
    matches neither and is not echoed back. *)
Lemma origin_without_scheme_not_matched :
  RegExp.test (regexPattern "*.example.com") "https://app.example.com" = Some false
  ∧ RegExp.test (regexPattern "app.example.com") "https://app.example.com" = Some false
  ∧ corsHeaders (request_from "https://app.example.com" "1.2.3.4")
                (env_with (Some "*.example.com,app.example.com") None None None)
    = Some baseCorsHeaders.
Proof. by vm_compute. Qed.

(** C4 (as amended). With a list of host patterns configured, the origin
    is echoed back exactly when some pattern matches it as a whole, case
    and scheme included, a star standing for one run of letters, digits
    and hyphens; otherwise no allow-origin header is set.  The origin
    [https://app.example.com] matches [https://*.example.com] and
    [https://app.example.com] but neither [*.example.com] nor
    [app.example.com]; [https://evil.com] matches none of the four. *)
Theorem origin_validator_match
    (request : Request) (env : Env) (domains : list string) (origin : string) :
  supportedDomains env = Some domains →
  forallb host_pattern domains = true →
  Headers_get (headers request) "Origin" = Some origin →
  origin ≠ "" →
  (∃ b, isWhitelisted domains origin = Some b
        ∧ (b = true ↔ ∃ domain, In domain domains ∧ wildcard_match domain origin)
        ∧ corsHeaders request env
          = Some (if b
                  then baseCorsHeaders ++ [("Access-Control-Allow-Origin", origin)]
                  else baseCorsHeaders)%list)
  ∧ wildcard_match "https://*.example.com" "https://app.example.com"
  ∧ wildcard_match "https://app.example.com" "https://app.example.com"
  ∧ ¬ wildcard_match "*.example.com" "https://app.example.com"
  ∧ ¬ wildcard_match "app.example.com" "https://app.example.com"
  ∧ ¬ wildcard_match "https://app.example.com" "https://APP.example.com"
  ∧ (∀ domain,
       In domain ["https://*.example.com"; "https://app.example.com";
                  "*.example.com"; "app.example.com"] →
       ¬ wildcard_match domain "https://evil.com").
Proof.
  intros Hdom Hpat Horigin Hne.
  split.
  { destruct (isWhitelisted_spec domains origin Hpat) as (b & Hw & Hb).
    exists b. split; [done |]. split; [done |].
    unfold corsHeaders. rewrite Hdom, Horigin.
    destruct origin as [| c o]; [done |]. cbn [truthy_string].
    rewrite Hw. by destruct b. }
  repeat split.
  - by apply (wildcard_match_test "https://*.example.com" "https://app.example.com" true).
  - by apply (wildcard_match_test "https://app.example.com" "https://app.example.com" true).
  - intros Hm. no_match.
  - intros Hm. no_match.
  - intros Hm. no_match.
  - intros domain Hin Hm. cbn [In] in Hin.
    destruct Hin as [<- | [<- | [<- | [<- | []]]]]; no_match.
Qed.

End OriginExamples.

(** ** The expiry of counter entries *)

Section CounterExpiry.

Variable upstream : Outbound → Result Response.

Lemma handleRequest_no_kv (request : Request) (env : Env) (cors : Headers)
    (w : World) (o : Result Response) (w' : World) :
  handleRequest upstream request env cors w = Some (o, w') →
  kv w' = kv w
  ∧ ∃ ext, log w' = (log w ++ ext)%list
           ∧ forallb (fun e => negb (is_kv_event e)) ext = true.
Proof.
  intros Hh.
  destruct (handleRequest_inv upstream request env cors w o w' Hh)
    as (Hkv & Hlog & _).
  split; [done |]. eexists. split; [exact Hlog | apply dispatchTrace_no_kv].
Qed.

(** Every way a request can end, with what it did to the store. *)
Lemma fetch_effects (now : Z) (request : Request) (env : Env)
    (w : World) (o : Result Response) (w' : World) :
  fetch now upstream request env w = Some (o, w') →
  let key := windowKey now request env in
  ∃ ext, log w' = (log w ++ ext)%list
    ∧ ((kv w' = kv w ∧ ∀ k v ttl, ¬ In (KVPut k v ttl) ext)
       ∨ ∃ value, kv w' = <[key := (value, now + 60 * 1000)]> (kv w)
                  ∧ ∀ k v ttl, In (KVPut k v ttl) ext →
                               k = key ∧ v = value ∧ ttl = 60).
Proof.
  intros Hf key.
  destruct (corsHeaders request env) as [cors |] eqn:Hcors;
    [| by unfold fetch, bind, lift in Hf; rewrite Hcors in Hf].
  assert (∀ ext, forallb (fun e => negb (is_kv_event e)) ext = true →
            ∀ k v ttl, ¬ In (KVPut k v ttl) ext) as Hnokv.
  { intros ext Hall k v ttl Hin. rewrite forallb_forall in Hall.
    by specialize (Hall _ Hin). }
  destruct (includes (whitelistedIps env) (clientIdentifier request)) eqn:Hwl.
  - rewrite (fetch_whitelisted now upstream request env w cors Hcors Hwl) in Hf.
    destruct (String.eqb _ _).
    + injection Hf as <- <-. exists []. rewrite app_nil_r.
      split; [done |]. left. split; [done |]. by intros k v ttl [].
    + apply handleRequest_no_kv in Hf as (Hkv & ext & Hlog & Hall).
      exists ext. split; [done |]. left. split; [done | by apply Hnokv].
  - destruct (String.eqb_spec (method request) "OPTIONS") as [Hm | Hm].
    + rewrite (fetch_preflight now upstream request env w cors Hcors Hm) in Hf.
      injection Hf as <- <-. exists []. rewrite app_nil_r.
      split; [done |]. left. split; [done |]. by intros k v ttl [].
    + rewrite (fetch_limited now upstream request env w cors Hcors Hm Hwl) in Hf.
      cbv zeta in Hf. fold key in Hf.
      destruct (number_ge _ _).
      * injection Hf as <- <-. eexists. split; [done |]. left.
        split; [done |]. intros k v ttl [Hin | []]. discriminate Hin.
      * apply handleRequest_no_kv in Hf as (Hkv & ext & Hlog & Hall).
        cbn [kv log] in Hkv, Hlog. rewrite <- app_assoc in Hlog.
        eexists. split; [exact Hlog |]. right. eexists. split; [exact Hkv |].
        intros k v ttl Hin. cbn [app In] in Hin.
        destruct Hin as [Hin | [Hin | Hin]]; [discriminate Hin | |].
        -- by injection Hin as <- <- <-.
        -- by destruct (Hnokv ext Hall k v ttl).
Qed.

Lemma same_window_within_length (now later d : Z) :
  d ≠ 0 → now <= later → later / d = now / d → later - now < Z.abs d.
Proof. intros Hd Hle Heq. Z.div_mod_to_equations. nia. Qed.

(** C8 (as amended). Every write of a counter uses the time-to-live of 60
    seconds, whatever the window length and however the request ends, and
    goes to the window key.  When
    the window is at most 60 seconds long, an entry written in a window is
    still live at every later moment of that window; from 60 seconds
    after the write on it is no longer readable. *)
Theorem counter_ttl_fixed (now : Z) (request : Request) (env : Env)
    (w : World) (o : Result Response) (w' : World) :
  fetch now upstream request env w = Some (o, w') →
  ∃ ext, log w' = (log w ++ ext)%list
    ∧ (∀ k v ttl, In (KVPut k v ttl) ext →
         ttl = 60
         ∧ k = windowKey now request env
         ∧ kv w' !! k = Some (v, now + 60 * 1000)
         ∧ (∀ later, later < now + 60 * 1000 → kv_lookup later (kv w') k = Some v)
         ∧ (∀ later, now + 60 * 1000 <= later → kv_lookup later (kv w') k = None))
    ∧ (∀ W later,
         RATE_LIMIT_TIME_WINDOW env = Fin W →
         Z.abs W <= 60 →
         now <= later →
         currentTime later env = currentTime now env →
         later < now + 60 * 1000).
Proof.
  intros Hf. destruct (fetch_effects now request env w o w' Hf) as (ext & Hlog & Hcases).
  exists ext. split; [done |]. split.
  - intros k v ttl Hin.
    destruct Hcases as [[_ Hno] | (value & Hkv & Hput)]; [by destruct (Hno k v ttl) |].
    destruct (Hput k v ttl Hin) as (-> & -> & ->).
    assert (kv w' !! windowKey now request env = Some (value, now + 60 * 1000)) as Hl.
    { rewrite Hkv. apply lookup_insert_eq. }
    repeat split; try done.
    + intros later Hlater. unfold kv_lookup. rewrite Hl.
      destruct (Z.ltb_spec later (now + 60 * 1000)); [done | lia].
    + intros later Hlater. unfold kv_lookup. rewrite Hl.
      destruct (Z.ltb_spec later (now + 60 * 1000)); [lia | done].
  - intros W later HW Hlen Hle Hsame.
    destruct (currentTime_finite now env W HW ltac:(lia)) as [Hnz Hnow].
    destruct (currentTime_finite later env W HW ltac:(lia)) as [_ Hlater].
    rewrite Hnow, Hlater in Hsame. injection Hsame as Hsame.
    pose proof (same_window_within_length now later (W * 1000) ltac:(lia) Hle Hsame).
    lia.
Qed.

End CounterExpiry.

(** ** Configuration defaults *)

Section Configuration.

Lemma trim_start_split (s : string) :
  ∃ ws, s = ws +:+ trim_start s ∧ all_chars is_white_space ws = true.
Proof.
  induction s as [| c s (ws & Heq & Hws)]; [by exists "" |].
  cbn [trim_start]. destruct (is_white_space c) eqn:Hc.
  - exists (String c ws). rewrite append_cons, <- Heq. cbn [all_chars].
    by rewrite Hc, Hws.
  - by exists "".
Qed.

Lemma strip_sign_split (s : string) :
  ∃ sign, s = sign +:+ snd (strip_sign s)
          ∧ (sign = "" ∨ sign = "+" ∨ sign = "-").
Proof.
  destruct s as [| c s]; [exists ""; eauto |].
  destruct (Ascii.eqb_spec c "-") as [-> | Hm]; [exists "-"; eauto |].
  destruct (Ascii.eqb_spec c "+") as [-> | Hp]; [exists "+"; eauto |].
  exists "". split; [| eauto].
  destruct c as [[] [] [] [] [] [] [] []]; done.
Qed.

Lemma digit_value_10_decimal (c : ascii) (d : Z) :
  digit_value 10 c = Some d → is_decimal_digit c = true.
Proof. destruct c as [[] [] [] [] [] [] [] []]; by vm_compute. Qed.

Lemma digits_then_decimal_head (s : string) :
  let '(radix, s') := strip_hex_prefix s in
  digits_prefix radix s' ≠ [] →
  ∃ d rest, s = String d rest ∧ is_decimal_digit d = true.
Proof.
  destruct s as [| c s]; [cbn; intros H; by destruct H |].
  assert (digits_prefix 10 (String c s) ≠ [] →
          ∃ d rest, String c s = String d rest ∧ is_decimal_digit d = true) as Hdec.
  { cbn [digits_prefix]. destruct (digit_value 10 c) as [d |] eqn:Hd; [| done].
    intros _. exists c, s. split; [done |]. by eapply digit_value_10_decimal. }
  destruct (Ascii.eqb_spec c "0") as [-> | Hc0].
  - destruct s as [| x s]; [exact Hdec |].
    assert (∃ d rest, String "0" (String x s) = String d rest
                      ∧ is_decimal_digit d = true) as Hzero by (by eexists _, _).
    unfold strip_hex_prefix.
    destruct (Ascii.eqb_spec x "x") as [-> | ?]; [done |].
    destruct (Ascii.eqb_spec x "X") as [-> | ?]; [done |].
    destruct x as [[] [] [] [] [] [] [] []]; done.
  - assert (strip_hex_prefix (String c s) = (10, String c s)) as ->; [| exact Hdec].
    destruct c as [[] [] [] [] [] [] [] []]; done.
Qed.

Lemma decimal_digit_not_space_or_sign (d : ascii) (rest : string) :
  is_decimal_digit d = true →
  is_white_space d = false
  ∧ strip_sign (String d rest) = (false, String d rest).
Proof. destruct d as [[] [] [] [] [] [] [] []]; by vm_compute. Qed.

Lemma trim_start_app (ws : string) (c : ascii) (t : string) :
  all_chars is_white_space ws = true →
  is_white_space c = false →
  trim_start (ws +:+ String c t) = String c t.
Proof.
  intros Hws Hc. induction ws as [| x ws IH].
  - rewrite append_nil. cbn [trim_start]. by rewrite Hc.
  - cbn [all_chars] in Hws. apply andb_prop in Hws as [Hx Hws].
    rewrite append_cons. cbn [trim_start]. rewrite Hx. by apply IH.
Qed.

Lemma integer_prefixb_spec (s : string) :
  has_integer_prefix s ↔ integer_prefixb s = true.
Proof.
  unfold integer_prefixb. split.
  - intros (ws & sign & d & rest & -> & Hws & Hsign & Hd).
    destruct (decimal_digit_not_space_or_sign d rest Hd) as [Hsp Hst].
    destruct Hsign as [-> | [-> | ->]].
    + rewrite append_nil, trim_start_app, Hst by done. done.
    + rewrite append_cons, append_nil, trim_start_app by done. done.
    + rewrite append_cons, append_nil, trim_start_app by done. done.
  - intros Hb.
    destruct (trim_start_split s) as (ws & Hs & Hws).
    destruct (strip_sign_split (trim_start s)) as (sign & Ht & Hsign).
    destruct (snd (strip_sign (trim_start s))) as [| d rest]; [done |].
    exists ws, sign, d, rest. rewrite Hs at 1. rewrite Ht at 1. done.
Qed.

(** [parseInt] yields a number only for texts with an integer prefix. *)
Lemma parseInt_number_prefix (s : string) :
  parseInt s ≠ NaN → has_integer_prefix s.
Proof.
  intros Hp. unfold parseInt in Hp.
  destruct (trim_start_split s) as (ws & Hs & Hws).
  destruct (strip_sign_split (trim_start s)) as (sign & Ht & Hsign).
  destruct (strip_sign (trim_start s)) as [neg s1] eqn:Es. cbn [snd] in Ht.
  pose proof (digits_then_decimal_head s1) as Hhead.
  destruct (strip_hex_prefix s1) as [radix s2].
  destruct (digits_prefix radix s2) eqn:Ed; [done |].
  destruct Hhead as (d & rest & -> & Hd); [done |].
  exists ws, sign, d, rest. rewrite Hs at 1. rewrite Ht at 1. done.
Qed.

Lemma default_applies (setting : option string) (default : number) :
  missing_or_non_numeric setting →
  or_number (parseInt (ToString_opt setting)) default = default.
Proof.
  intros Hm. destruct setting as [s |]; [| done]. cbn in Hm. cbn [ToString_opt].
  destruct (parseInt s) eqn:Ep; [done | | |];
    destruct Hm; apply parseInt_number_prefix; by rewrite Ep.
Qed.

Lemma or_number_truthy (a b : number) :
  truthy_number b = true → truthy_number (or_number a b) = true.
Proof. intros Hb. unfold or_number. by destruct (truthy_number a) eqn:Ha. Qed.

Lemma pretty_go_app (x : N) : ∀ s, pretty_N_go x s = pretty_N_go x "" +:+ s.
Proof.
  induction (N.lt_wf_0 x) as [x _ IH]; intros s.
  destruct (decide (x = 0%N)) as [-> | Hx]; [by rewrite !pretty_N_go_0 |].
  rewrite !(pretty_N_go_step x) by lia.
  rewrite (IH (x `div` 10)%N ltac:(apply N.div_lt; lia) (String _ s)).
  rewrite (IH (x `div` 10)%N ltac:(apply N.div_lt; lia) (String _ "")).
  by rewrite append_assoc.
Qed.

(** The text of a positive number, followed by something that is not a
    digit, reads as that number. *)
Lemma parse_positive_prefix (p : positive) (suffix : string) :
  digits_prefix 10 suffix = [] →
  let s := pretty_N_go (N.pos p) suffix in
  trim_start s = s
  ∧ strip_sign s = (false, s)
  ∧ strip_hex_prefix s = (10, s)
  ∧ digits_prefix 10 s ≠ []
  ∧ digits_value 10 (digits_prefix 10 s) = Z.pos p.
Proof.
  intros Hsuffix s. subst s.
  destruct (pretty_go_head (N.pos p) suffix ltac:(lia))
    as (c & rest & d & Hs & Hd & Hd1).
  destruct (decimal_digit_char c d rest Hd) as (Hws & Hsign & Hhex).
  destruct (read10_pretty_go (N.pos p) suffix) as (k & _ & Hread).
  specialize (Hread 0). unfold read10 in Hread. rewrite Hsuffix in Hread.
  cbn [fold_left] in Hread.
  rewrite Hs in *. cbn [trim_start]. rewrite Hws.
  repeat split; [done | by apply Hhex | | ].
  - cbn [digits_prefix]. by rewrite Hd.
  - unfold digits_value. rewrite Hread. cbn. lia.
Qed.

Lemma parseInt_leading_integer (n : Z) (suffix : string) :
  n ≠ 0 →
  digits_prefix 10 suffix = [] →
  parseInt (pretty n +:+ suffix) = round_double n.
Proof.
  intros Hn Hsuffix. destruct n as [| p | p]; [done | |].
  - rewrite pretty_pos_unfold, <- pretty_go_app.
    destruct (parse_positive_prefix p suffix Hsuffix) as (Ht & Hs & Hh & Hne & Hv).
    unfold parseInt. rewrite Ht, Hs, Hh.
    destruct (digits_prefix 10 (pretty_N_go (N.pos p) suffix)) eqn:E; [done |].
    by rewrite Hv.
  - rewrite pretty_neg_unfold, append_cons, <- pretty_go_app.
    destruct (parse_positive_prefix p suffix Hsuffix) as (Ht & Hs & Hh & Hne & Hv).
    unfold parseInt. simpl trim_start. simpl strip_sign. cbv iota beta.
    rewrite Hh.
    destruct (digits_prefix 10 (pretty_N_go (N.pos p) suffix)) eqn:E; [done |].
    by rewrite Hv.
Qed.

Lemma fetch_total (now : Z) (upstream : Outbound → Result Response)
    (request : Request) (env : Env) (w : World) (cors : Headers) :
  corsHeaders request env = Some cors →
  method request = "OPTIONS" ∨ is_Some (outbound request env) →
  is_Some (fetch now upstream request env w).
Proof.
  intros Hcors Hout.
  destruct (String.eqb_spec (method request) "OPTIONS") as [Hm | Hm].
  { rewrite (fetch_preflight now upstream request env w cors Hcors Hm). eauto. }
  destruct Hout as [? | Hout]; [done |].
  destruct (includes (whitelistedIps env) (clientIdentifier request)) eqn:Hwl.
  - rewrite (fetch_whitelisted now upstream request env w cors Hcors Hwl).
    apply String.eqb_neq in Hm. rewrite Hm. by apply handleRequest_is_Some.
  - rewrite (fetch_limited now upstream request env w cors Hcors Hm Hwl).
    cbv zeta. destruct (number_ge _ _); [by eexists |].
    by apply handleRequest_is_Some.
Qed.

(** A request fails only where the dispatcher fails. *)
Lemma fetch_throws_in_dispatcher (now : Z) (upstream : Outbound → Result Response)
    (request : Request) (env : Env) (w : World) (cors : Headers)
    (e : Error) (w' : World) :
  corsHeaders request env = Some cors →
  fetch now upstream request env w = Some (Threw e, w') →
  ∃ w0, handleRequest upstream request env cors w0 = Some (Threw e, w').
Proof.
  intros Hcors Hf.
  destruct (String.eqb_spec (method request) "OPTIONS") as [Hm | Hm].
  { by rewrite (fetch_preflight now upstream request env w cors Hcors Hm) in Hf. }
  destruct (includes (whitelistedIps env) (clientIdentifier request)) eqn:Hwl.
  - rewrite (fetch_whitelisted now upstream request env w cors Hcors Hwl) in Hf.
    apply String.eqb_neq in Hm. rewrite Hm in Hf. by exists w.
  - rewrite (fetch_limited now upstream request env w cors Hcors Hm Hwl) in Hf.
    cbv zeta in Hf. destruct (number_ge _ _); [done |]. by eexists.
Qed.

(** C9 (as amended). When the maximum or the window length is not set, or
    its text does not begin with a decimal digit after optional white space
    and a sign, the limiter works with 50 requests and 1 second.  A text
    that begins with a non-zero integer is read as that integer, whatever
    follows it: "12abc" is 12 and "60s" is 60.  The values the limiter works
    with are never zero and never NaN.  Computing them never makes a request
    fail: a request has an outcome whenever the dispatcher has one for it,
    and it fails only where the dispatcher fails. *)
Theorem configuration_defaulting (env : Env) :
  (missing_or_non_numeric (Env.RATE_LIMIT_MAX_REQUESTS env) →
     RATE_LIMIT_MAX_REQUESTS env = Fin 50)
  ∧ (missing_or_non_numeric (Env.RATE_LIMIT_TIME_WINDOW env) →
     RATE_LIMIT_TIME_WINDOW env = Fin 1)
  ∧ (∀ (n : Z) (suffix : string),
       n ≠ 0 → Z.abs n < 2 ^ 53 → digits_prefix 10 suffix = [] →
       (Env.RATE_LIMIT_MAX_REQUESTS env = Some (pretty n +:+ suffix) →
          RATE_LIMIT_MAX_REQUESTS env = Fin n)
       ∧ (Env.RATE_LIMIT_TIME_WINDOW env = Some (pretty n +:+ suffix) →
          RATE_LIMIT_TIME_WINDOW env = Fin n))
  ∧ truthy_number (RATE_LIMIT_MAX_REQUESTS env) = true
  ∧ truthy_number (RATE_LIMIT_TIME_WINDOW env) = true
  ∧ (∀ now upstream request w cors,
       corsHeaders request env = Some cors →
       (method request = "OPTIONS" ∨ is_Some (outbound request env) →
        is_Some (fetch now upstream request env w))
       ∧ ∀ e w',
           fetch now upstream request env w = Some (Threw e, w') →
           ∃ w0, handleRequest upstream request env cors w0 = Some (Threw e, w')).
Proof.
  split; [apply default_applies |]. split; [apply default_applies |].
  split.
  { intros n suffix Hn Hsafe Hsuffix.
    assert (or_number (parseInt (pretty n +:+ suffix)) (Fin 50) = Fin n
            ∧ or_number (parseInt (pretty n +:+ suffix)) (Fin 1) = Fin n)
      as [H50 H1].
    { rewrite parseInt_leading_integer, round_double_safe by done.
      unfold or_number. cbn. by destruct (Z.eqb_spec n 0). }
    unfold RATE_LIMIT_MAX_REQUESTS, RATE_LIMIT_TIME_WINDOW.
    split; intros ->; done. }
  split; [by apply or_number_truthy |]. split; [by apply or_number_truthy |].
  intros now upstream request w cors Hcors. split.
  - by apply (fetch_total now upstream request env w cors).
  - intros e w'. by apply fetch_throws_in_dispatcher.
Qed.

End Configuration.

(** ** A negative maximum *)

Section NegativeLimit.

Variable now : Z.
Variable upstream : Outbound → Result Response.

(** C10. A maximum configured as the text of a negative integer, such as
    "-1", is used as it is, without the default; every request that is
    neither allow-listed nor a preflight is then answered with status 429
    and the body "Rate limit exceeded", without a write and without a call
    of the upstream: whatever count is stored, and also the first request
    of a window, for which no count is stored. *)
Theorem negative_limit_rejects_all (env : Env) (m : Z) :
  Env.RATE_LIMIT_MAX_REQUESTS env = Some (pretty m) →
  - 2 ^ 53 < m < 0 →
  RATE_LIMIT_MAX_REQUESTS env = Fin m
  ∧ RATE_LIMIT_MAX_REQUESTS env ≠ Fin 50
  ∧ ∀ (request : Request) (w : World) (cors : Headers),
      corsHeaders request env = Some cors →
      method request ≠ "OPTIONS" →
      includes (whitelistedIps env) (clientIdentifier request) = false →
      let key := windowKey now request env in
      (kv_lookup now (kv w) key = None
       ∨ ∃ c, 0 <= c ∧ countOf (kv_lookup now (kv w) key) = Fin c) →
      ∃ r, fetch now upstream request env w
           = Some (Returned r,
                   {| kv := kv w; log := (log w ++ [KVGet key])%list |})
           ∧ status r = 429
           ∧ res_body r = Some "Rate limit exceeded"
           ∧ res_headers r
             = (cors ++ [("Content-Type", "text/plain;charset=UTF-8")])%list.
Proof.
  intros Hmax Hm.
  assert (RATE_LIMIT_MAX_REQUESTS env = Fin m) as HM.
  { unfold RATE_LIMIT_MAX_REQUESTS. rewrite Hmax. cbn [ToString_opt].
    rewrite parseInt_pretty_safe by lia.
    unfold or_number. cbn. destruct (Z.eqb_spec m 0); [lia | done]. }
  split; [done |]. split; [rewrite HM; intros [= ?]; lia |].
  intros request w cors Hcors Hmeth Hwl key Hcount.
  assert (∃ c, 0 <= c ∧ countOf (kv_lookup now (kv w) key) = Fin c)
    as (c & Hc0 & Hc).
  { destruct Hcount as [-> | ?]; [by exists 0 | done]. }
  rewrite (fetch_limited now upstream request env w cors Hcors Hmeth Hwl).
  cbv zeta. fold key. rewrite Hc, HM. cbn [number_ge].
  destruct (Z.leb_spec m c); [| lia]. by eexists.
Qed.

End NegativeLimit.

(** ** Routing *)

Section Routing.

Variable upstream : Outbound → Result Response.

(** C5 (as amended). On the regular path, for a request whose request
    object can be made, the upstream host depends on the inbound path and
    the [cluster] parameter only: the fixed API host for every path but the
    root, and for the root path the host of the cluster, in lower case,
    when the cluster value is made of labels of letters, digits and
    hyphens; the inbound path is the path of the outbound URL.  Without a
    [cluster] parameter the cluster is "mainnet". *)
Theorem dispatch_host_selection
    (request : Request) (env : Env) (cors : Headers) (w : World) :
  isUpgrade request = false →
  sendable request = true →
  stable_path (pathname (url request)) = true →
  (pathname (url request) = "/" → cluster_name (CLUSTER request) = true) →
  all_chars query_char (ToString_opt (Env.HELIUS_API_KEY env)) = true →
  all_chars query_char (search (url request)) = true →
  (∃ o out,
     handleRequest upstream request env cors w
     = Some (o, {| kv := kv w; log := (log w ++ [ReadText; Fetch out])%list |})
     ∧ href_host (out_url out)
       = (if String.eqb (pathname (url request)) "/"
          then lower (CLUSTER request) +:+ ".helius-rpc.com"
          else "api.helius.xyz")
     ∧ href_pathname (out_url out) = pathname (url request))
  ∧ (searchParams_get (searchParams (url request)) "cluster" = None →
     CLUSTER request = "mainnet").
Proof.
  intros Hu Hsend Hpath Hcluster Hkey Hsearch.
  split; [| by unfold CLUSTER; intros ->].
  pose proof (proxyRequest_built request env Hsend Hpath Hcluster Hkey Hsearch)
    as Hout.
  assert (outbound request env = proxyRequest request env (bodyText request))
    as Hob by (unfold outbound; by rewrite Hu).
  rewrite Hout in Hob.
  rewrite (handleRequest_forward upstream request env cors w _ Hob), Hu.
  eexists _, _. split; [reflexivity |]. done.
Qed.

End Routing.

(** ** Inputs on which statements of the specification fail *)

Section Counterexamples.

(** C5 (as stated): a request for the root path whose [cluster] parameter
    is [evil.example/] is not sent to a host of the cluster: its host is
    [evil.example], and the credential is in its query. *)
Lemma cluster_with_slash_leaves_provider :
  pathname (url foreign_cluster_request) = "/"
  ∧ CLUSTER foreign_cluster_request = "evil.example/"
  ∧ handleRequest sample_upstream foreign_cluster_request
      (env_with None None None None) open_cors empty_world
    = Some (Returned {| status := 200; res_body := Some "{}";
                        res_headers := open_cors |},
            {| kv := ∅;
               log := [ReadText;
                       Fetch {| out_url :=
                                  {| href_host := "evil.example";
                                     href_pathname := "/.helius-rpc.com/";
                                     href_search :=
                                       "?api-key=KEY&cluster=evil.example/" |};
                                out_method := "POST";
                                out_headers :=
                                  [("Content-Type", "application/json");
                                   ("X-Helius-Cloudflare-Proxy", "true")];
                                out_body := Some "{}" |}] |}).
Proof. repeat split; reflexivity. Qed.

(** C6 (as stated): a request whose [Upgrade] header is present with the
    empty value is not passed through: its body is read and the outbound
    request gets the two proxy headers instead of its own. *)
Lemma empty_upgrade_not_passed_through :
  upgradeHeader empty_upgrade_request = Some ""
  ∧ handleRequest sample_upstream empty_upgrade_request
      (env_with None None None None) baseCorsHeaders empty_world
    = Some (Returned {| status := 200; res_body := Some "{}";
                        res_headers := baseCorsHeaders |},
            {| kv := ∅;
               log := [ReadText;
                       Fetch {| out_url :=
                                  {| href_host := "devnet.helius-rpc.com";
                                     href_pathname := "/";
                                     href_search := "?api-key=KEY&cluster=devnet" |};
                                out_method := "GET";
                                out_headers :=
                                  [("Content-Type", "application/json");
                                   ("X-Helius-Cloudflare-Proxy", "true")];
                                out_body := None |}] |}).
Proof. split; reflexivity. Qed.

(** C7 (as stated): the request is proxied, the upstream answers with the
    status 999, and no response with that status is handed back: the
    request fails. *)
Lemma out_of_range_status_not_relayed :
  isUpgrade client = false
  ∧ ∃ out,
      handleRequest busy_upstream client (env_with None None None None)
                    open_cors empty_world
      = Some (Threw RangeError, {| kv := ∅; log := [ReadText; Fetch out] |})
      ∧ busy_upstream out = Returned busy_answer
      ∧ status busy_answer = 999.
Proof. split; [reflexivity |]. eexists. repeat split; reflexivity. Qed.

(** C8 (as stated): with a window of 120 seconds and a maximum of 1, an
    entry written at the start of a window has expired 61 seconds later,
    in the same window, and a second request is admitted. *)
Lemma long_window_entry_expires_early :
  let request := request_from "https://app.example.com" "1.2.3.4" in
  let t1 := 1700000040000 in
  let t2 := 1700000101000 in
  let key := windowKey t1 request long_window_env in
  RATE_LIMIT_TIME_WINDOW long_window_env = Fin 120
  ∧ windowKey t2 request long_window_env = key
  ∧ ∃ r1 w1 r2 w2,
      fetch t1 sample_upstream request long_window_env empty_world
      = Some (Returned r1, w1)
      ∧ kv w1 !! key = Some ("1", t1 + 60 * 1000)
      ∧ kv_lookup t2 (kv w1) key = None
      ∧ fetch t2 sample_upstream request long_window_env w1
        = Some (Returned r2, w2)
      ∧ status r2 = 200
      ∧ In (KVPut key "1" 60) (skipn (length (log w1)) (log w2)).
Proof.
  cbv zeta. split; [by vm_compute |]. split; [by vm_compute |].
  eexists _, _, _, _. split; [by vm_compute |].
  split; [by vm_compute |]. split; [by vm_compute |].
  split; [by vm_compute |]. split; [by vm_compute |].
  vm_compute. tauto.
Qed.

(** C9 (as stated): the settings "12abc" and "60s" are no numbers, and yet
    the limiter works with 12 requests and 60 seconds, not with the
    defaults. *)
Lemma non_numeric_setting_not_defaulted :
  let env := env_with None (Some "12abc") (Some "60s") None in
  RATE_LIMIT_MAX_REQUESTS env = Fin 12
  ∧ RATE_LIMIT_TIME_WINDOW env = Fin 60
  ∧ RATE_LIMIT_MAX_REQUESTS env ≠ Fin 50
  ∧ RATE_LIMIT_TIME_WINDOW env ≠ Fin 1.
Proof. by vm_compute. Qed.

End Counterexamples.

(** ** The statements at sample inputs *)

Section Witnesses.

Lemma rate_limiter_admission_witness :
  fetch now0 sample_upstream client (env_with None (Some "2") None None)
        empty_world
  = handleRequest sample_upstream client (env_with None (Some "2") None None)
      open_cors
      {| kv := <["1.2.3.4:1700000000" := ("1", 1700000060123)]> ∅;
         log := [KVGet "1.2.3.4:1700000000";
                 KVPut "1.2.3.4:1700000000" "1" 60] |}
  ∧ ∃ r,
      fetch now0 sample_upstream client (env_with None (Some "2") None None)
            used_world
      = Some (Returned r,
              {| kv := kv used_world; log := [KVGet "1.2.3.4:1700000000"] |})
      ∧ status r = 429
      ∧ res_body r = Some "Rate limit exceeded"
      ∧ res_headers r
        = (open_cors ++ [("Content-Type", "text/plain;charset=UTF-8")])%list.
Proof.
  split.
  - refine (proj1 (proj1 (proj2
      (rate_limiter_admission now0 sample_upstream client
         (env_with None (Some "2") None None) empty_world open_cors 2 0
         eq_refl _ eq_refl eq_refl eq_refl _)) _)).
    + discriminate.
    + lia.
    + lia.
  - refine (proj1
      (rate_limiter_admission now0 sample_upstream client
         (env_with None (Some "2") None None) used_world open_cors 2 2
         eq_refl _ eq_refl eq_refl _ _) _).
    + discriminate.
    + vm_compute. reflexivity.
    + lia.
    + lia.
Defined.

Lemma allow_list_bypass_witness :
  In (clientIdentifier (request_from "https://app.example.com" "10.0.0.2"))
     (split "," "10.0.0.1,10.0.0.2")
  ∧ fetch now0 sample_upstream (request_from "https://app.example.com" "10.0.0.2")
          (env_with None (Some "2") None (Some "10.0.0.1,10.0.0.2")) used_world
    = handleRequest sample_upstream
        (request_from "https://app.example.com" "10.0.0.2")
        (env_with None (Some "2") None (Some "10.0.0.1,10.0.0.2"))
        open_cors used_world.
Proof.
  assert (In (clientIdentifier (request_from "https://app.example.com" "10.0.0.2"))
             (split "," "10.0.0.1,10.0.0.2")) as Hin.
  { right. left. reflexivity. }
  split; [exact Hin |].
  exact (proj1 (proj1 (allow_list_bypass now0 sample_upstream
                  (request_from "https://app.example.com" "10.0.0.2")
                  (env_with None (Some "2") None (Some "10.0.0.1,10.0.0.2"))
                  used_world open_cors eq_refl) "10.0.0.1,10.0.0.2" eq_refl Hin)).
Defined.

Lemma window_key_is_floor_witness :
  RATE_LIMIT_TIME_WINDOW (env_with None None (Some "10") None) = Fin 10
  ∧ windowKey now0 client (env_with None None (Some "10") None)
    = clientIdentifier client +:+ ":" +:+ pretty (window_floor now0 10).
Proof.
  split; [reflexivity |].
  refine (proj1 (window_key_is_floor now0 client
                   (env_with None None (Some "10") None) 10 eq_refl _ _)).
  - reflexivity.
  - unfold now0. lia.
Defined.

Lemma origin_validator_match_witness :
  corsHeaders client
    (env_with (Some "https://*.example.com,https://app.example.com") None None None)
  = Some (baseCorsHeaders
          ++ [("Access-Control-Allow-Origin", "https://app.example.com")])%list.
Proof.
  destruct (origin_validator_match client
              (env_with (Some "https://*.example.com,https://app.example.com")
                        None None None)
              ["https://*.example.com"; "https://app.example.com"]
              "https://app.example.com" eq_refl eq_refl eq_refl)
    as ((b & _ & Hb & Hcors) & Hstar & _).
  - discriminate.
  - assert (b = true) as ->.
    { apply Hb. exists "https://*.example.com". split; [left; reflexivity | exact Hstar]. }
    exact Hcors.
Defined.

Lemma dispatch_host_selection_witness :
  (∃ o out,
     handleRequest sample_upstream client (env_with None None None None)
                   open_cors empty_world
     = Some (o, {| kv := ∅; log := [ReadText; Fetch out] |})
     ∧ href_host (out_url out) = "devnet.helius-rpc.com"
     ∧ href_pathname (out_url out) = "/")
  ∧ (∃ o out,
       handleRequest sample_upstream api_client (env_with None None None None)
                     open_cors empty_world
       = Some (o, {| kv := ∅; log := [ReadText; Fetch out] |})
       ∧ href_host (out_url out) = "api.helius.xyz"
       ∧ href_pathname (out_url out) = "/v0/transactions").
Proof.
  split.
  - exact (proj1 (dispatch_host_selection sample_upstream client
                    (env_with None None None None) open_cors empty_world
                    eq_refl eq_refl eq_refl (fun _ => eq_refl) eq_refl eq_refl)).
  - exact (proj1 (dispatch_host_selection sample_upstream api_client
                    (env_with None None None None) open_cors empty_world
                    eq_refl eq_refl eq_refl (fun _ => eq_refl) eq_refl eq_refl)).
Defined.

Lemma upgrade_passthrough_witness :
  handleRequest sample_upstream websocket_request (env_with None None None None)
                open_cors empty_world
  = Some (Returned sample_answer,
          {| kv := ∅;
             log := [Fetch {| out_url :=
                                {| href_host := "devnet.helius-rpc.com";
                                   href_pathname := "/";
                                   href_search := "?api-key=KEY" |};
                              out_method := "GET";
                              out_headers := [("Upgrade", "websocket")];
                              out_body := None |}] |}).
Proof.
  refine (upgrade_passthrough sample_upstream websocket_request
            (env_with None None None None) open_cors empty_world "websocket"
            eq_refl _ eq_refl eq_refl eq_refl).
  discriminate.
Defined.

Lemma proxied_response_relay_witness :
  ∃ out,
    handleRequest sample_upstream client (env_with None None None None)
                  open_cors empty_world
    = Some (Returned {| status := 200; res_body := Some "{}";
                        res_headers := open_cors |},
            {| kv := ∅; log := [ReadText; Fetch out] |})
    ∧ href_host (out_url out) = "devnet.helius-rpc.com".
Proof.
  eexists. split.
  - refine (proj1 (proj2 (proxied_response_relay sample_upstream client
                            (env_with None None None None) open_cors eq_refl))
                  empty_world _ sample_answer eq_refl eq_refl _ _).
    + cbn. lia.
    + discriminate.
  - reflexivity.
Defined.

Lemma counter_ttl_fixed_witness :
  ∃ o w' ext,
    fetch now0 sample_upstream client (env_with None None None None) empty_world
    = Some (o, w')
    ∧ log w' = ext
    ∧ ∀ k v ttl, In (KVPut k v ttl) ext → ttl = 60.
Proof.
  destruct (fetch now0 sample_upstream client (env_with None None None None)
              empty_world) as [[o w'] |] eqn:Hf; [| by vm_compute in Hf].
  destruct (counter_ttl_fixed sample_upstream now0 client
              (env_with None None None None) empty_world o w' Hf)
    as (ext & Hlog & Hput & _).
  exists o, w', ext. split; [reflexivity |]. split; [exact Hlog |].
  intros k v ttl Hin. exact (proj1 (Hput k v ttl Hin)).
Defined.

Lemma configuration_defaulting_witness :
  RATE_LIMIT_MAX_REQUESTS (env_with None (Some "abc") None None) = Fin 50
  ∧ RATE_LIMIT_TIME_WINDOW (env_with None (Some "abc") None None) = Fin 1
  ∧ RATE_LIMIT_TIME_WINDOW (env_with None None (Some "60s") None) = Fin 60.
Proof.
  destruct (configuration_defaulting (env_with None (Some "abc") None None))
    as (Hmax & Hwindow & _).
  destruct (configuration_defaulting (env_with None None (Some "60s") None))
    as (_ & _ & Hlead & _).
  split; [| split].
  - apply Hmax. intros Hp. apply integer_prefixb_spec in Hp. discriminate Hp.
  - apply Hwindow. exact I.
  - refine (proj2 (Hlead 60 "s" _ _ eq_refl) eq_refl); [discriminate | reflexivity].
Defined.

Lemma negative_limit_rejects_all_witness :
  RATE_LIMIT_MAX_REQUESTS (env_with None (Some "-1") None None) = Fin (-1)
  ∧ ∃ r,
      fetch now0 sample_upstream client (env_with None (Some "-1") None None)
            empty_world
      = Some (Returned r, {| kv := ∅; log := [KVGet "1.2.3.4:1700000000"] |})
      ∧ status r = 429
      ∧ res_body r = Some "Rate limit exceeded"
      ∧ res_headers r
        = (open_cors ++ [("Content-Type", "text/plain;charset=UTF-8")])%list.
Proof.
  destruct (negative_limit_rejects_all now0 sample_upstream
              (env_with None (Some "-1") None None) (-1) eq_refl ltac:(lia))
    as (Hmax & _ & Hall).
  split; [exact Hmax |].
  refine (Hall client empty_world open_cors eq_refl _ eq_refl _).
  - discriminate.
  - left. reflexivity.
Defined.

End Witnesses.

(** * Further properties of the worker *)
(** ** The quota of one window *)

Section Quota.

Variable upstream : Outbound → Result Response.

Lemma same_window_close (t t' d : Z) :
  d ≠ 0 → t' / d = t / d → t' - t < Z.abs d.
Proof. intros Hd Heq. Z.div_mod_to_equations. nia. Qed.

Lemma limited_call_key (env : Env) (id : string) (idx : Z) (call : Z * Request) :
  limited_call env id idx call →
  windowKey (fst call) (snd call) env = id +:+ ":" +:+ Number_toString (Fin idx).
Proof. intros (_ & Hid & _ & Hct). unfold windowKey. by rewrite Hid, Hct. Qed.

(** Calls of one window are less than the window's length apart. *)
Lemma limited_calls_close (env : Env) (id : string) (idx W : Z)
    (call : Z * Request) (rest : list (Z * Request)) :
  RATE_LIMIT_TIME_WINDOW env = Fin W →
  Z.abs W <= 60 →
  limited_call env id idx call →
  Forall (limited_call env id idx) rest →
  Forall (fun c => fst c < fst call + 60 * 1000) rest.
Proof.
  intros HW HW60 (_ & _ & _ & Hct) Hrest.
  destruct (currentTime_finite (fst call) env W HW ltac:(lia)) as [Hnz Hc].
  rewrite Hc in Hct. injection Hct as Hidx.
  eapply Forall_impl; [exact Hrest |].
  intros c (_ & _ & _ & Hct'). cbn beta.
  destruct (currentTime_finite (fst c) env W HW ltac:(lia)) as [_ Hc'].
  rewrite Hc' in Hct'. injection Hct' as Hidx'.
  pose proof (same_window_close (fst call) (fst c) (W * 1000) ltac:(lia)
                ltac:(congruence)).
  lia.
Qed.

(** The limiter's decision, for a stored count [j] that is still live. *)
Lemma fetch_at_count (env : Env) (m : Z) (id : string) (idx : Z)
    (call : Z * Request) (cors : Headers) (o : Result Response)
    (w : World) (j : Z) :
  RATE_LIMIT_MAX_REQUESTS env = Fin m →
  m < 2 ^ 53 →
  includes (whitelistedIps env) id = false →
  limited_call env id idx call →
  corsHeaders (snd call) env = Some cors →
  dispatchOutcome upstream (snd call) env cors = Some o →
  0 <= j → (0 < j → j <= m) →
  let key := id +:+ ":" +:+ Number_toString (Fin idx) in
  (j = 0 ∧ kv w !! key = None
   ∨ 0 < j ∧ ∃ e, kv w !! key = Some (pretty j, e) ∧ fst call < e) →
  fetch (fst call) upstream (snd call) env w
  = if m <=? j
    then Some (Returned
                 {| status := 429;
                    res_body := Some "Rate limit exceeded";
                    res_headers :=
                      (cors ++ [("Content-Type", "text/plain;charset=UTF-8")])%list |},
               {| kv := kv w; log := (log w ++ [KVGet key])%list |})
    else Some (o,
               {| kv := <[key := (pretty (j + 1), fst call + 60 * 1000)]> (kv w);
                  log := (log w ++ [KVGet key; KVPut key (pretty (j + 1)) 60]
                                ++ dispatchTrace upstream (snd call) env cors)%list |}).
Proof.
  intros HM Hm Hwl Hcall Hcors Ho Hj0 Hjm key Hstored.
  pose proof (limited_call_key env id idx call Hcall) as Hkey. fold key in Hkey.
  destruct Hcall as (Hmeth & Hid & _ & _).
  rewrite <- Hid in Hwl.
  rewrite (fetch_limited (fst call) upstream (snd call) env w cors Hcors Hmeth Hwl).
  cbv zeta. rewrite Hkey, HM.
  assert (countOf (kv_lookup (fst call) (kv w) key) = Fin j) as ->.
  { unfold kv_lookup.
    destruct Hstored as [[-> ->] | (Hpos & e & -> & Hlive)]; [done |].
    destruct (Z.ltb_spec (fst call) e); [| lia].
    rewrite countOf_pretty. apply round_double_safe. lia. }
  cbn [number_ge]. destruct (Z.leb_spec m j); [done |].
  assert (number_add (Fin j) 1 = Fin (j + 1)) as ->.
  { cbn. apply round_double_safe. lia. }
  rewrite Number_toString_small by lia.
  rewrite handleRequest_run, Ho. cbn [kv log]. by rewrite <- app_assoc.
Qed.

(** Decide the comparisons of a goal and close it by arithmetic. *)
Ltac ltb_cases :=
  repeat match goal with
         | |- context [?a <? ?b] => destruct (Z.ltb_spec a b)
         end;
  first [done | lia].

Lemma quota_run (env : Env) (m W : Z) (id : string) (idx : Z) :
  RATE_LIMIT_MAX_REQUESTS env = Fin m →
  m < 2 ^ 53 →
  RATE_LIMIT_TIME_WINDOW env = Fin W →
  Z.abs W <= 60 →
  includes (whitelistedIps env) id = false →
  let key := id +:+ ":" +:+ Number_toString (Fin idx) in
  ∀ (calls : list (Z * Request)) (w : World) (j : Z),
    Forall (limited_call env id idx) calls →
    Forall (fun call => forwardable (snd call) env) calls →
    0 <= j → (0 < j → j <= m) →
    (j = 0 ∧ kv w !! key = None
     ∨ 0 < j ∧ ∃ e, kv w !! key = Some (pretty j, e)
                    ∧ Forall (fun c => fst c < e) calls) →
    ∃ rs w' ext,
      serve upstream env calls w = Some (rs, w')
      ∧ log w' = (log w ++ ext)%list
      ∧ length rs = length calls
      ∧ (∀ (i : nat) call cors,
           calls !! i = Some call →
           corsHeaders (snd call) env = Some cors →
           rs !! i = if j + Z.of_nat i <? m
                     then dispatchOutcome upstream (snd call) env cors
                     else Some (Returned
                            {| status := 429;
                               res_body := Some "Rate limit exceeded";
                               res_headers :=
                                 (cors ++ [("Content-Type",
                                            "text/plain;charset=UTF-8")])%list |}))
      ∧ Z.of_nat (upstream_calls ext)
        = Z.min (Z.of_nat (length calls)) (Z.max (m - j) 0)
      ∧ (let j' := j + Z.min (Z.of_nat (length calls)) (Z.max (m - j) 0) in
         if 0 <? j' then ∃ e, kv w' !! key = Some (pretty j', e)
         else kv w' !! key = None).
Proof.
  intros HM Hm HW HW60 Hwl key calls.
  induction calls as [| call rest IH]; intros w j Hcalls Hfw Hj0 Hjm Hstored.
  - exists [], w, []. rewrite app_nil_r.
    split; [done |]. split; [done |]. split; [done |]. split; [done |].
    split; [cbn; lia |].
    cbv zeta. cbn [length].
    replace (j + Z.min _ _) with j by lia.
    destruct (Z.ltb_spec 0 j).
    + destruct Hstored as [[-> _] | (_ & e & He & _)]; [lia | by exists e].
    + destruct Hstored as [[_ Hnone] | (Hpos & _)]; [done | lia].
  - apply Forall_cons in Hcalls as [Hcall Hrest].
    apply Forall_cons in Hfw as [Hfw Hfwrest].
    destruct (proj1 (proj2 (proj2 Hcall))) as [cors Hcors].
    destruct (dispatchOutcome_forwardable upstream (snd call) env cors Hfw)
      as [o Ho].
    assert (j = 0 ∧ kv w !! key = None
            ∨ 0 < j ∧ ∃ e, kv w !! key = Some (pretty j, e) ∧ fst call < e) as Hhead.
    { destruct Hstored as [? | (Hpos & e & He & Hall)]; [by left |].
      right. split; [done |]. exists e. split; [done |].
      by apply Forall_cons in Hall as [? _]. }
    pose proof (fetch_at_count env m id idx call cors o w j HM Hm Hwl Hcall Hcors
                  Ho Hj0 Hjm Hhead) as Hf.
    fold key in Hf.
    destruct (Z.leb_spec m j) as [Hfull | Hroom].
    + (* rejected *)
      destruct (IH {| kv := kv w; log := (log w ++ [KVGet key])%list |} j Hrest
                  Hfwrest Hj0 Hjm)
        as (rs & w' & ext & Hs & Hlog & Hlen & Hans & Hup & Hfin).
      { destruct Hstored as [? | (Hpos & e & He & Hall)]; [by left |].
        right. split; [done |]. exists e. split; [done |].
        by apply Forall_cons in Hall as [_ ?]. }
      eexists (_ :: rs), w', ([KVGet key] ++ ext)%list.
      split.
      { destruct call as [t request]. cbn [serve].
        cbn [fst snd] in Hf. rewrite Hf. by rewrite Hs. }
      split; [cbn [log] in Hlog; by rewrite Hlog, <- app_assoc |].
      split; [by cbn; rewrite Hlen |].
      split.
      { intros [| i] c cs Hc Hcs; cbn in Hc.
        - injection Hc as <-. rewrite Hcors in Hcs. injection Hcs as <-.
          cbn. ltb_cases.
        - specialize (Hans i c cs Hc Hcs).
          transitivity (rs !! i); [reflexivity |]. rewrite Hans. ltb_cases. }
      split.
      { cbn [app upstream_calls]. rewrite Hup. cbn [length]. lia. }
      cbv zeta in Hfin |- *. cbn [length].
      replace (j + Z.min _ _)
        with (j + Z.min (Z.of_nat (length rest)) (Z.max (m - j) 0)) by lia.
      exact Hfin.
    + (* admitted *)
      set (w1 := {| kv := <[key := (pretty (j + 1), fst call + 60 * 1000)]> (kv w);
                    log := (log w ++ [KVGet key; KVPut key (pretty (j + 1)) 60]
                                  ++ dispatchTrace upstream (snd call) env cors)%list |})
        in *.
      destruct (IH w1 (j + 1) Hrest Hfwrest ltac:(lia) ltac:(lia))
        as (rs & w' & ext & Hs & Hlog & Hlen & Hans & Hup & Hfin).
      { right. split; [lia |]. exists (fst call + 60 * 1000). split.
        - apply lookup_insert_eq.
        - by eapply limited_calls_close. }
      exists (o :: rs), w',
        (([KVGet key; KVPut key (pretty (j + 1)) 60]
          ++ dispatchTrace upstream (snd call) env cors) ++ ext)%list.
      split.
      { destruct call as [t request]. cbn [serve].
        cbn [fst snd] in Hf. rewrite Hf. by rewrite Hs. }
      split; [unfold w1 in Hlog; cbn [log] in Hlog; by rewrite Hlog, <- !app_assoc |].
      split; [by cbn; rewrite Hlen |].
      split.
      { intros [| i] c cs Hc Hcs; cbn in Hc.
        - injection Hc as <-. rewrite Hcors in Hcs. injection Hcs as <-.
          cbn. ltb_cases.
        - specialize (Hans i c cs Hc Hcs).
          transitivity (rs !! i); [reflexivity |]. rewrite Hans. ltb_cases. }
      split.
      { rewrite !upstream_calls_app, upstream_calls_dispatch by done.
        cbn [upstream_calls].
        cbn [length]. lia. }
      cbv zeta in Hfin |- *. cbn [length].
      replace (j + Z.min _ _)
        with (j + 1 + Z.min (Z.of_nat (length rest)) (Z.max (m - (j + 1)) 0))
        by lia.
      exact Hfin.
Qed.


End Quota.

(** ** Window keys of different clients and windows *)

Section Keys.

Lemma pretty_char_no_colon (x : N) : is_colon (pretty_N_char x) = false.
Proof. unfold pretty_N_char. by repeat case_match. Qed.

Lemma pretty_go_no_colon (x : N) : ∀ s,
  none_of is_colon s = true → none_of is_colon (pretty_N_go x s) = true.
Proof.
  induction (N.lt_wf_0 x) as [x _ IH]; intros s Hs.
  destruct (decide (x = 0%N)) as [-> | Hx]; [by rewrite pretty_N_go_0 |].
  rewrite pretty_N_go_step by lia.
  apply IH; [apply N.div_lt; lia |].
  unfold none_of. cbn [all_chars]. by rewrite pretty_char_no_colon.
Qed.

Lemma pretty_no_colon (z : Z) : none_of is_colon (pretty z) = true.
Proof.
  destruct z as [| p | p]; [done | |].
  - rewrite pretty_pos_unfold. by apply pretty_go_no_colon.
  - rewrite pretty_neg_unfold. unfold none_of. cbn [all_chars].
    by apply pretty_go_no_colon.
Qed.

Lemma drop_trailing_zeros_none_of (stop : ascii → bool) (s : string) :
  none_of stop s = true → none_of stop (drop_trailing_zeros s) = true.
Proof.
  unfold none_of. induction s as [| c s IH]; [done |].
  cbn [all_chars drop_trailing_zeros]. intros [Hc Hs]%andb_prop.
  specialize (IH Hs).
  destruct (drop_trailing_zeros s) as [| d t].
  - destruct (Ascii.eqb c "0"); [done |]. cbn [all_chars]. by rewrite Hc.
  - cbn [all_chars] in *. by rewrite Hc, IH.
Qed.

Lemma exponent_form_no_colon (x : Z) : none_of is_colon (exponent_form x) = true.
Proof.
  unfold exponent_form.
  pose proof (drop_trailing_zeros_none_of is_colon _
                (pretty_no_colon (shortest_from x 1 17))) as Hd.
  destruct (drop_trailing_zeros _) as [| d ds]; [done |].
  unfold none_of in Hd. cbn [all_chars] in Hd. apply andb_prop in Hd as [Hd Hds].
  assert (∀ n : Z, none_of is_colon ("e+" +:+ pretty n) = true) as He.
  { intros n. apply none_of_app; [done | apply pretty_no_colon]. }
  destruct ds as [| d' ds'].
  - unfold none_of at 1. cbn [all_chars]. rewrite Hd. apply He.
  - unfold none_of at 1. cbn [all_chars]. rewrite Hd.
    apply (none_of_app is_colon "."); [done |].
    apply none_of_app; [exact Hds | apply He].
Qed.

(** The text of a number holds no colon. *)
Lemma Number_toString_no_colon (n : number) :
  none_of is_colon (Number_toString n) = true.
Proof.
  destruct n as [| | | z]; try done.
  unfold Number_toString. destruct (Z.abs z <? 2 ^ 53); [apply pretty_no_colon |].
  assert (∀ x, none_of is_colon
                 ((if Z.abs z <? 10 ^ 21 then decimal_form else exponent_form) x)
               = true) as Hdigits.
  { intros x. destruct (Z.abs z <? 10 ^ 21);
      [apply pretty_no_colon | apply exponent_form_no_colon]. }
  cbv zeta. destruct (z <? 0); [| apply Hdigits].
  apply (none_of_app is_colon "-"); [done | apply Hdigits].
Qed.

Lemma colon_inside (a y : string) :
  none_of is_colon (a +:+ String ":" y) = false.
Proof.
  unfold none_of. induction a as [| c a IH]; [by rewrite append_nil |].
  rewrite append_cons. cbn [all_chars]. rewrite IH. apply andb_false_r.
Qed.

(** A text after the last colon determines both parts. *)
Lemma last_colon_split (a b x y : string) :
  none_of is_colon x = true →
  none_of is_colon y = true →
  a +:+ ":" +:+ x = b +:+ ":" +:+ y →
  a = b ∧ x = y.
Proof.
  intros Hx Hy. revert b.
  induction a as [| c a IH]; intros [| d b] Heq;
    repeat (rewrite append_cons in Heq || rewrite append_nil in Heq).
  - injection Heq as ->. done.
  - injection Heq as <- ->. by rewrite colon_inside in Hx.
  - injection Heq as -> <-. by rewrite colon_inside in Hy.
  - injection Heq as -> Heq. destruct (IH b) as [-> ->]; [| done].
    by repeat (rewrite append_cons || rewrite append_nil).
Qed.

Lemma window_key_unambiguous_parts
    (t1 t2 : Z) (r1 r2 : Request) (env1 env2 : Env) :
  windowKey t1 r1 env1 = windowKey t2 r2 env2 →
  clientIdentifier r1 = clientIdentifier r2
  ∧ Number_toString (currentTime t1 env1) = Number_toString (currentTime t2 env2).
Proof.
  unfold windowKey. apply last_colon_split; apply Number_toString_no_colon.
Qed.

(** X2. Two window keys are equal exactly when the two client identities
    are equal and the two window indices have the same text: the index
    holds no colon, so identities with colons in them (IPv6 addresses)
    never run into the key of another identity. *)
Theorem window_key_unambiguous
    (t1 t2 : Z) (r1 r2 : Request) (env1 env2 : Env) :
  windowKey t1 r1 env1 = windowKey t2 r2 env2
  ↔ clientIdentifier r1 = clientIdentifier r2
    ∧ Number_toString (currentTime t1 env1) = Number_toString (currentTime t2 env2).
Proof.
  split.
  - apply window_key_unambiguous_parts.
  - unfold windowKey. by intros [-> ->].
Qed.

End Keys.

(** ** What a request leaves alone *)

Section Frame.

Variable upstream : Outbound → Result Response.

Lemma serve_cons_inv (env : Env) (call : Z * Request)
    (rest : list (Z * Request)) (w : World) (rs : list (Result Response)) (w' : World) :
  serve upstream env (call :: rest) w = Some (rs, w') →
  ∃ r w1 rs',
    fetch (fst call) upstream (snd call) env w = Some (r, w1)
    ∧ serve upstream env rest w1 = Some (rs', w')
    ∧ rs = r :: rs'.
Proof.
  destruct call as [t request]. cbn [serve fst snd].
  destruct (fetch t upstream request env w) as [[r w1] |]; [| done].
  destruct (serve upstream env rest w1) as [[rs' w2] |] eqn:Hrest; [| done].
  intros [= <- <-]. by eexists _, _, _.
Qed.

(** A request changes no entry of the store but that of its own key. *)
Lemma fetch_frame (now : Z) (request : Request) (env : Env)
    (w : World) (r : Result Response) (w' : World) (k : string) :
  fetch now upstream request env w = Some (r, w') →
  k ≠ windowKey now request env →
  kv w' !! k = kv w !! k.
Proof.
  intros Hf Hk.
  destruct (fetch_effects upstream now request env w r w' Hf)
    as (ext & _ & [[-> _] | (value & -> & _)]); [done |].
  by rewrite lookup_insert_ne.
Qed.

Lemma serve_frame (env : Env) (k : string) (calls : list (Z * Request)) :
  ∀ (w : World) (rs : list (Result Response)) (w' : World),
    Forall (fun call => windowKey (fst call) (snd call) env ≠ k) calls →
    serve upstream env calls w = Some (rs, w') →
    kv w' !! k = kv w !! k.
Proof.
  induction calls as [| call rest IH]; intros w rs w' Hcalls Hs.
  - by injection Hs as <- <-.
  - apply Forall_cons in Hcalls as [Hcall Hrest].
    apply serve_cons_inv in Hs as (r & w1 & rs' & Hf & Hs & _).
    rewrite (IH w1 rs' w' Hrest Hs).
    eapply fetch_frame; [exact Hf | by intros ->].
Qed.

(** X3. However many requests other clients make, and whatever their
    answers, the counter entries of a client are not touched: after any
    sequence of calls whose client identities differ from a request's, the
    store holds for that request's window key, at any time, what it held
    before. *)
Theorem other_clients_leave_counter
    (env : Env) (calls : list (Z * Request)) (w : World)
    (rs : list (Result Response)) (w' : World) (t : Z) (request : Request) :
  Forall (fun call => clientIdentifier (snd call) ≠ clientIdentifier request) calls →
  serve upstream env calls w = Some (rs, w') →
  kv w' !! windowKey t request env = kv w !! windowKey t request env
  ∧ kv_lookup t (kv w') (windowKey t request env)
    = kv_lookup t (kv w) (windowKey t request env).
Proof.
  intros Hcalls Hs.
  assert (kv w' !! windowKey t request env = kv w !! windowKey t request env) as Heq.
  { eapply serve_frame; [| exact Hs].
    eapply Forall_impl; [exact Hcalls |].
    intros call Hid Hkey. apply Hid.
    by apply (window_key_unambiguous_parts _ _ _ _ _ _ Hkey). }
  split; [done |]. unfold kv_lookup. by rewrite Heq.
Qed.

End Frame.

(** ** A new window *)

Section NewWindow.

Variable upstream : Outbound → Result Response.

Lemma windowKey_decimal (t : Z) (request : Request) (env : Env) (W : Z) :
  RATE_LIMIT_TIME_WINDOW env = Fin W →
  Z.abs W * 1000 < 2 ^ 53 →
  0 <= t < 2 ^ 53 →
  currentTime t env = Fin (t / (W * 1000))
  ∧ Number_toString (currentTime t env) = pretty (t / (W * 1000)).
Proof.
  intros HW Hsafe Ht.
  destruct (currentTime_finite t env W HW Hsafe) as [Hnz Hct].
  split; [done |]. rewrite Hct. apply Number_toString_small.
  pose proof (window_index_bound t (W * 1000) ltac:(lia) ltac:(lia)). lia.
Qed.

(** X4. The first request of a window is admitted whatever was counted
    in other windows: after any calls, by any clients, whose window index
    differs from the request's, a request whose own key had no live entry
    before them (the maximum being at least 1) has the count "1" written
    for it with the 60 second time-to-live and is handed to the
    dispatcher. *)
Theorem new_window_starts_at_one
    (env : Env) (m W : Z) (calls : list (Z * Request)) (w : World)
    (rs : list (Result Response)) (w1 : World) (t : Z) (request : Request) (cors : Headers) :
  RATE_LIMIT_MAX_REQUESTS env = Fin m →
  1 <= m →
  RATE_LIMIT_TIME_WINDOW env = Fin W →
  Z.abs W * 1000 < 2 ^ 53 →
  0 <= t < 2 ^ 53 →
  Forall (fun call => 0 <= fst call < 2 ^ 53
                      ∧ currentTime (fst call) env ≠ currentTime t env) calls →
  serve upstream env calls w = Some (rs, w1) →
  kv_lookup t (kv w) (windowKey t request env) = None →
  method request ≠ "OPTIONS" →
  includes (whitelistedIps env) (clientIdentifier request) = false →
  corsHeaders request env = Some cors →
  let key := windowKey t request env in
  fetch t upstream request env w1
  = handleRequest upstream request env cors
      {| kv := <[key := ("1", t + 60 * 1000)]> (kv w1);
         log := (log w1 ++ [KVGet key; KVPut key "1" 60])%list |}.
Proof.
  intros HM Hm HW Hsafe Ht Hcalls Hs Hnone Hmeth Hwl Hcors key.
  assert (kv w1 !! key = kv w !! key) as Hsame.
  { eapply serve_frame; [| exact Hs].
    eapply Forall_impl; [exact Hcalls |].
    intros call [Htc Hidx] Hkey. apply Hidx.
    apply window_key_unambiguous_parts in Hkey as [_ Htext].
    destruct (windowKey_decimal (fst call) (snd call) env W HW Hsafe Htc) as [Hc1 Hp1].
    destruct (windowKey_decimal t request env W HW Hsafe Ht) as [Hc2 Hp2].
    rewrite Hp1, Hp2 in Htext. apply (inj pretty) in Htext.
    by rewrite Hc1, Hc2, Htext. }
  rewrite (fetch_limited t upstream request env w1 cors Hcors Hmeth Hwl).
  cbv zeta. fold key.
  assert (kv_lookup t (kv w1) key = None) as ->.
  { unfold kv_lookup in *. fold key in Hnone. by rewrite Hsame. }
  cbn [countOf]. rewrite HM. cbn [number_ge].
  by destruct (Z.leb_spec m 0); [lia |].
Qed.

End NewWindow.

(** ** The entries of the store *)

Section StoreInvariant.

Variable upstream : Outbound → Result Response.

Lemma counts_only_fetch (now : Z) (request : Request) (env : Env)
    (w : World) (r : Result Response) (w' : World) :
  counts_only (kv w) →
  fetch now upstream request env w = Some (r, w') →
  counts_only (kv w').
Proof.
  intros Hwf Hf.
  destruct (corsHeaders request env) as [cors |] eqn:Hcors;
    [| by unfold fetch, bind, lift in Hf; rewrite Hcors in Hf].
  destruct (includes (whitelistedIps env) (clientIdentifier request)) eqn:Hwl.
  { destruct (fetch_effects upstream now request env w r w' Hf)
      as (ext & _ & [[-> _] | (value & _ & Hput)]); [done |].
    rewrite (fetch_whitelisted now upstream request env w cors Hcors Hwl) in Hf.
    destruct (String.eqb _ _); [by injection Hf as <- <- |].
    destruct (handleRequest_inv upstream request env cors w r w' Hf) as (-> & _).
    done. }
  destruct (String.eqb_spec (method request) "OPTIONS") as [Hm | Hm].
  { rewrite (fetch_preflight now upstream request env w cors Hcors Hm) in Hf.
    by injection Hf as <- <-. }
  rewrite (fetch_limited now upstream request env w cors Hcors Hm Hwl) in Hf.
  cbv zeta in Hf. set (key := windowKey now request env) in *.
  destruct (number_ge _ _); [by injection Hf as <- <- |].
  destruct (handleRequest_inv upstream request env cors _ r w' Hf) as (-> & _).
  cbn [kv].
  assert (∃ c, 1 <= c <= 2 ^ 53
               ∧ Number_toString (number_add (countOf (kv_lookup now (kv w) key)) 1)
                 = pretty c) as (c & Hc & Htext).
  { unfold kv_lookup. destruct (kv w !! key) as [[v e] |] eqn:Hl.
    - destruct (Hwf key v e Hl) as (c & Hc & ->).
      destruct (now <? e); [| by exists 1].
      rewrite countOf_pretty, round_double_upto by lia. cbn [number_add].
      destruct (decide (c = 2 ^ 53)) as [-> | Hne].
      + exists (2 ^ 53). split; [lia | by vm_compute].
      + exists (c + 1). split; [lia |].
        rewrite round_double_upto by lia. apply Number_toString_upto. lia.
    - by exists 1. }
  intros k v e Hl. destruct (decide (k = key)) as [-> | Hk].
  - rewrite lookup_insert_eq in Hl. injection Hl as <- <-. by exists c.
  - rewrite lookup_insert_ne in Hl by done. by eapply Hwf.
Qed.

(** X5. The store only ever holds counts: if every entry is the decimal
    text of an integer from 1 to 2^53, the same is true after any sequence
    of requests; in particular from the empty store.  No request writes a
    zero, a negative number or a text that is not a number. *)
Theorem store_holds_counts
    (env : Env) (calls : list (Z * Request)) (w : World)
    (rs : list (Result Response)) (w' : World) :
  counts_only (kv w) →
  serve upstream env calls w = Some (rs, w') →
  counts_only (kv w')
  ∧ ∀ t request c,
      countOf (kv_lookup t (kv w') (windowKey t request env)) = c →
      ∃ z, c = Fin z ∧ 0 <= z <= 2 ^ 53.
Proof.
  intros Hwf Hs.
  assert (counts_only (kv w')) as Hwf'.
  { revert w rs w' Hwf Hs. induction calls as [| call rest IH]; intros w rs w' Hwf Hs.
    - by injection Hs as <- <-.
    - apply serve_cons_inv in Hs as (r & w1 & rs' & Hf & Hs & _).
      eapply IH; [| exact Hs]. by eapply counts_only_fetch. }
  split; [done |].
  intros t request c <-. unfold kv_lookup.
  destruct (kv w' !! _) as [[v e] |] eqn:Hl; [| exists 0; split; [done | lia]].
  destruct (t <? e); [| exists 0; split; [done | lia]].
  destruct (Hwf' _ v e Hl) as (z & Hz & ->).
  exists z. rewrite countOf_pretty, round_double_upto by lia. split; [done | lia].
Qed.

End StoreInvariant.


(** ** The effects of one request *)

Section Effects.

Variable upstream : Outbound → Result Response.

(** The trace of the dispatcher, as a part of "read the body, call the
    upstream". *)
Lemma dispatchTrace_sublist (request : Request) (env : Env) (cors : Headers) :
  ∃ out, sublist (dispatchTrace upstream request env cors) [ReadText; Fetch out].
Proof.
  pose proof (dispatchTrace_cases upstream request env cors) as H. cbv zeta in H.
  destruct (outbound request env) as [[out | e] |].
  - exists out. rewrite H. destruct (isUpgrade request); repeat constructor.
  - exists {| out_url := {| href_host := ""; href_pathname := ""; href_search := "" |};
              out_method := ""; out_headers := []; out_body := None |}.
    rewrite H. destruct (isUpgrade request); repeat constructor.
  - exists {| out_url := {| href_host := ""; href_pathname := ""; href_search := "" |};
              out_method := ""; out_headers := []; out_body := None |}.
    rewrite H. repeat constructor.
Qed.

Lemma sublist_upstream_calls (l1 l2 : list event) :
  sublist l1 l2 → (upstream_calls l1 <= upstream_calls l2)%nat.
Proof.
  induction 1 as [| e l1 l2 _ IH | e l1 l2 _ IH]; [done | |];
    destruct e; cbn [upstream_calls]; lia.
Qed.

(** X6. What one request does, however it ends.  Its effects are, in this
    order and each at most once: the read of its window key, the write of
    that key with the time-to-live of 60 seconds, the read of the body, the
    call of the upstream.  A preflight does nothing.  A write comes after
    the read of the same key and is the only change of the store.  The
    upstream is only called for an allow-listed client or after the count
    was written.  An answer given without a call of the upstream is the
    preflight answer or the 429, and the 429 leaves the store as it was. *)
Theorem request_effects (now : Z) (request : Request) (env : Env)
    (w : World) (o : Result Response) (w' : World) :
  fetch now upstream request env w = Some (o, w') →
  let key := windowKey now request env in
  ∃ ext v out,
    log w' = (log w ++ ext)%list
    ∧ sublist ext [KVGet key; KVPut key v 60; ReadText; Fetch out]
    ∧ (upstream_calls ext <= 1)%nat
    ∧ (method request = "OPTIONS" → ext = [] ∧ kv w' = kv w)
    ∧ (In (KVPut key v 60) ext →
       In (KVGet key) ext ∧ kv w' = <[key := (v, now + 60 * 1000)]> (kv w))
    ∧ (¬ In (KVPut key v 60) ext → kv w' = kv w)
    ∧ (upstream_calls ext = 1%nat →
       includes (whitelistedIps env) (clientIdentifier request) = true
       ∨ In (KVPut key v 60) ext)
    ∧ (∀ r, o = Returned r → upstream_calls ext = 0%nat →
         method request = "OPTIONS" ∧ status r = 200 ∧ res_body r = None
         ∨ status r = 429 ∧ res_body r = Some "Rate limit exceeded"
           ∧ ext = [KVGet key] ∧ kv w' = kv w).
Proof.
  intros Hf key.
  destruct (corsHeaders request env) as [cors |] eqn:Hcors;
    [| by unfold fetch, bind, lift in Hf; rewrite Hcors in Hf].
  destruct (dispatchTrace_sublist request env cors) as [out Hsub].
  pose proof (sublist_upstream_calls _ _ Hsub) as Hcalls. cbn in Hcalls.
  pose proof (dispatchTrace_no_kv upstream request env cors) as Hnokv.
  rewrite forallb_forall in Hnokv.
  assert (∀ k v ttl, ¬ In (KVPut k v ttl) (dispatchTrace upstream request env cors))
    as Hnoput.
  { intros k v ttl Hin. by specialize (Hnokv _ Hin). }
  assert (∀ r, o = Returned r →
            ∀ w0, handleRequest upstream request env cors w0 = Some (o, w') →
                  upstream_calls (dispatchTrace upstream request env cors) = 1%nat)
    as Hanswered.
  { intros r -> w0 Hh.
    destruct (handleRequest_inv upstream request env cors w0 _ w' Hh)
      as (_ & _ & Hret).
    destruct (Hret r eq_refl) as (out' & res & _ & _ & -> & _).
    by destruct (isUpgrade request). }
  destruct (String.eqb_spec (method request) "OPTIONS") as [Hm | Hm].
  { rewrite (fetch_preflight now upstream request env w cors Hcors Hm) in Hf.
    injection Hf as <- <-. exists [], "", out. rewrite app_nil_r.
    split; [done |]. split; [repeat constructor |]. split; [cbn; lia |].
    split; [done |]. split; [done |]. split; [done |]. split; [done |].
    intros r [= <-] _. by left. }
  destruct (includes (whitelistedIps env) (clientIdentifier request)) eqn:Hwl.
  { rewrite (fetch_whitelisted now upstream request env w cors Hcors Hwl) in Hf.
    pose proof Hm as Hm'. apply String.eqb_neq in Hm'. rewrite Hm' in Hf.
    destruct (handleRequest_inv upstream request env cors w o w' Hf)
      as (Hkv & Hlog & _).
    exists (dispatchTrace upstream request env cors), "", out.
    split; [done |]. split; [by do 2 apply sublist_cons |].
    split; [done |]. split; [done |].
    split; [by intros ?%Hnoput |]. split; [done |]. split; [by left |].
    intros r Hr Hzero. rewrite (Hanswered r Hr w Hf) in Hzero. done. }
  rewrite (fetch_limited now upstream request env w cors Hcors Hm Hwl) in Hf.
  cbv zeta in Hf. fold key in Hf.
  destruct (number_ge _ _).
  { injection Hf as <- <-. exists [KVGet key], "", out.
    split; [done |]. split; [repeat constructor |]. split; [cbn; lia |].
    split; [done |]. split; [by intros [? | []] |]. split; [done |].
    split; [done |]. intros r [= <-] _. by right. }
  set (v := Number_toString _) in Hf.
  destruct (handleRequest_inv upstream request env cors _ o w' Hf)
    as (Hkv & Hlog & _).
  cbn [kv log] in Hkv, Hlog. rewrite <- app_assoc in Hlog.
  exists ([KVGet key; KVPut key v 60]
          ++ dispatchTrace upstream request env cors)%list, v, out.
  split; [done |]. split; [by do 2 apply sublist_skip |].
  split; [by rewrite upstream_calls_app |].
  split; [done |]. split; [intros _; split; [by left | done] |].
  split; [intros Hno; destruct Hno; right; by left |].
  split; [intros _; right; right; by left |].
  intros r Hr Hzero. rewrite upstream_calls_app in Hzero. cbn in Hzero.
  rewrite (Hanswered r Hr _ Hf) in Hzero. done.
Qed.

End Effects.
(** ** Numeric settings *)

Section Settings.

(** X7. A maximum or window length whose text is a non-zero integer below
    2^53 in size, alone or followed by anything that does not start with a
    digit (a unit, a comment), is used as that integer; the text "0" gives
    the default. *)
Theorem settings_read_leading_integer (env : Env) (n : Z) (suffix : string) :
  n ≠ 0 →
  Z.abs n < 2 ^ 53 →
  digits_prefix 10 suffix = [] →
  (Env.RATE_LIMIT_MAX_REQUESTS env = Some (pretty n +:+ suffix) →
     RATE_LIMIT_MAX_REQUESTS env = Fin n)
  ∧ (Env.RATE_LIMIT_TIME_WINDOW env = Some (pretty n +:+ suffix) →
     RATE_LIMIT_TIME_WINDOW env = Fin n)
  ∧ (Env.RATE_LIMIT_MAX_REQUESTS env = Some "0" →
     RATE_LIMIT_MAX_REQUESTS env = Fin 50)
  ∧ (Env.RATE_LIMIT_TIME_WINDOW env = Some "0" →
     RATE_LIMIT_TIME_WINDOW env = Fin 1).
Proof.
  intros Hn Hsafe Hsuffix.
  assert (or_number (parseInt (pretty n +:+ suffix)) (Fin 50) = Fin n
          ∧ or_number (parseInt (pretty n +:+ suffix)) (Fin 1) = Fin n) as [H50 H1].
  { rewrite parseInt_leading_integer, round_double_safe by done.
    unfold or_number. cbn. by destruct (Z.eqb_spec n 0). }
  unfold RATE_LIMIT_MAX_REQUESTS, RATE_LIMIT_TIME_WINDOW.
  repeat split; intros ->; done.
Qed.

End Settings.


(** ** The outbound URL *)

Section OutboundUrl.

Variable upstream : Outbound → Result Response.

(** X8. On the regular path the query of the outbound URL is the
    credential as [api-key] first and then, after an ampersand, the inbound
    query as it came, parameters of the client included; without an inbound
    query it is the credential alone. *)
Theorem proxied_query_keeps_inbound
    (request : Request) (env : Env) (cors : Headers) (w : World) :
  isUpgrade request = false →
  sendable request = true →
  stable_path (pathname (url request)) = true →
  (pathname (url request) = "/" → cluster_name (CLUSTER request) = true) →
  all_chars query_char (ToString_opt (Env.HELIUS_API_KEY env)) = true →
  all_chars query_char (search (url request)) = true →
  ∃ o w' out,
    handleRequest upstream request env cors w = Some (o, w')
    ∧ log w' = (log w ++ [ReadText; Fetch out])%list
    ∧ href_search (out_url out)
      = "?api-key=" +:+ ToString_opt (Env.HELIUS_API_KEY env)
        +:+ match search (url request) with
            | EmptyString => EmptyString
            | String _ q => "&" +:+ q
            end.
Proof.
  intros Hu Hsend Hpath Hcluster Hkey Hsearch.
  pose proof (proxyRequest_built request env Hsend Hpath Hcluster Hkey Hsearch)
    as Hout.
  assert (outbound request env = proxyRequest request env (bodyText request))
    as Hob by (unfold outbound; by rewrite Hu).
  rewrite Hout in Hob.
  rewrite (handleRequest_forward upstream request env cors w _ Hob), Hu.
  eexists _, _, _. split; [reflexivity |]. done.
Qed.

(** The URL that a request object was made of. *)
Lemma outbound_url (request : Request) (env : Env) (out : Outbound) :
  outbound request env = Some (Returned out) →
  URL_parse (if isUpgrade request then websocketUrl request env
             else proxyUrl request env)
  = Some (Returned (out_url out)).
Proof.
  unfold outbound, websocketRequest, proxyRequest, Request_from, Request_new.
  destruct (isUpgrade request);
    destruct (URL_parse _) as [[u | e] |]; try done;
    repeat case_match; try done; by intros [= <-].
Qed.

Lemma dispatchTrace_fetch (request : Request) (env : Env) (cors : Headers)
    (out : Outbound) :
  In (Fetch out) (dispatchTrace upstream request env cors) →
  outbound request env = Some (Returned out).
Proof.
  pose proof (dispatchTrace_cases upstream request env cors) as H. cbv zeta in H.
  destruct (outbound request env) as [[out' | e] |]; rewrite H;
    destruct (isUpgrade request); cbn [app In]; intros Hin;
    intuition congruence.
Qed.

(** X9. The [cluster] parameter is not checked before it is put in the
    host position: when its value is a host name [h] followed by a slash,
    the outbound request of the root path, and of every upgrade request,
    goes to host [h], with the credential in its query; and for a request
    with a method that the constructor takes, and no body on GET or HEAD,
    that outbound request is made. *)
Theorem cluster_value_chooses_host
    (request : Request) (env : Env) (cors : Headers) (h rest : string) :
  CLUSTER request = h +:+ String "/" rest →
  domain_name h = true →
  stable_path (String "/" (rest +:+ ".helius-rpc.com/")) = true →
  all_chars query_char (ToString_opt (Env.HELIUS_API_KEY env)) = true →
  all_chars query_char (search (url request)) = true →
  isUpgrade request = true ∨ pathname (url request) = "/" →
  (∀ out,
     In (Fetch out) (dispatchTrace upstream request env cors) →
     href_host (out_url out) = lower h
     ∧ href_pathname (out_url out) = String "/" (rest +:+ ".helius-rpc.com/")
     ∧ ∃ tail, href_search (out_url out)
               = "?api-key=" +:+ ToString_opt (Env.HELIUS_API_KEY env) +:+ tail)
  ∧ (sendable request = true →
     ∃ out, In (Fetch out) (dispatchTrace upstream request env cors)).
Proof.
  intros Hcl Hh Hrest Hkey Hsearch Hcase.
  set (key := ToString_opt _) in *.
  set (tail := match search (url request) with
               | EmptyString => ""
               | String _ q => "&" +:+ q
               end).
  assert (all_chars query_char tail = true) as Htail.
  { unfold tail. destruct (search (url request)) as [| c q]; [done |].
    cbn [all_chars] in Hsearch. apply andb_prop in Hsearch as [_ Hq].
    by rewrite all_chars_app, Hq. }
  assert (∃ t, URL_parse (if isUpgrade request then websocketUrl request env
                          else proxyUrl request env)
               = Some (Returned
                   {| href_host := lower h;
                      href_pathname := String "/" (rest +:+ ".helius-rpc.com/");
                      href_search := "?api-key=" +:+ key +:+ t |}))
    as [t Hparse].
  { assert (∀ t, all_chars query_char t = true →
              URL_parse ("https://" +:+ h +:+ String "/" (rest +:+ ".helius-rpc.com/")
                         +:+ String "?" ("api-key=" +:+ key +:+ t))
              = Some (Returned
                  {| href_host := lower h;
                     href_pathname := String "/" (rest +:+ ".helius-rpc.com/");
                     href_search := "?api-key=" +:+ key +:+ t |})) as Hurl.
    { intros t Ht. rewrite (URL_parse_template h _ _ Hh Hrest); [done |].
      by rewrite !all_chars_app, Hkey, Ht. }
    destruct (isUpgrade request) eqn:Hu.
    - exists "". rewrite <- (Hurl "" eq_refl). f_equal.
      unfold websocketUrl. fold key. rewrite Hcl. norm_append.
    - destruct Hcase as [? | Hroot]; [done |].
      exists tail. rewrite <- (Hurl tail Htail). f_equal.
      unfold proxyUrl, tail. fold key. rewrite Hroot, Hcl.
      cbn [String.eqb Ascii.eqb Bool.eqb].
      destruct (search (url request)); cbn [truthy_string slice1]; norm_append. }
  split.
  - intros out Hin. apply dispatchTrace_fetch, outbound_url in Hin.
    rewrite Hparse in Hin. injection Hin as <-. cbn. eauto.
  - intros Hsend.
    destruct (sendable_body request Hsend) as (Hknown & Hbody & Hpayload).
    assert (∃ out, outbound request env = Some (Returned out)) as [out Hout].
    { unfold outbound, websocketRequest, proxyRequest, Request_from, Request_new.
      destruct (isUpgrade request); rewrite Hparse;
        cbn [proxyInit init_method init_body init_headers];
        rewrite Hknown; cbn [negb]; [rewrite Hbody | rewrite Hpayload];
        by eexists. }
    exists out.
    pose proof (dispatchTrace_cases upstream request env cors) as H.
    cbv zeta in H. rewrite Hout in H. rewrite H.
    apply in_app_iff. right. by left.
Qed.

End OutboundUrl.
(** ** The allow-origin header *)

Section AllowOrigin.

Import RegExp.

Lemma parse_no_star (src : string) : ∀ (skip : nat) (r : RegExp.t),
  parse_from skip src = Some r → Forall (fun a => a ≠ Chr "*") r.
Proof.
  induction src as [| c src IH]; intros skip r H.
  - injection H as <-. constructor.
  - cbn [parse_from] in H. destruct skip as [| k]; [| by eapply IH].
    destruct (Ascii.eqb c "^").
    { apply fmap_Some in H as (r' & Hr' & ->). constructor; [done | by eapply IH]. }
    destruct (Ascii.eqb c "$").
    { apply fmap_Some in H as (r' & Hr' & ->). constructor; [done | by eapply IH]. }
    destruct (Ascii.eqb c "\").
    { destruct src as [| [[] [] [] [] [] [] [] []] src']; try discriminate H.
      apply fmap_Some in H as (r' & Hr' & ->). constructor; [done | by eapply IH]. }
    destruct (Ascii.eqb c "[").
    { destruct (String.prefix _ _); [| done].
      apply fmap_Some in H as (r' & Hr' & ->). constructor; [done | by eapply IH]. }
    destruct (syntax_char c) eqn:Hc; [done |].
    apply fmap_Some in H as (r' & Hr' & ->).
    constructor; [| by eapply IH]. intros [= ->]. done.
Qed.

Lemma prefix_before_dollar (p : string) : ∀ s : string,
  none_of is_dollar p = true →
  String.prefix p (s +:+ "$") = true →
  (String.length p <= String.length s)%nat.
Proof.
  unfold none_of. induction p as [| a p IH]; intros s Hp Hpre; [cbn; lia |].
  cbn [all_chars] in Hp. apply andb_prop in Hp as [Ha Hp].
  destruct s as [| b s].
  - rewrite append_nil in Hpre. cbn [String.prefix] in Hpre.
    destruct (ascii_dec a "$") as [-> | _]; [done | done].
  - rewrite append_cons in Hpre. cbn [String.prefix] in Hpre.
    destruct (ascii_dec a b); [| done].
    cbn [String.length]. specialize (IH s Hp Hpre). lia.
Qed.

Lemma parse_ends_Eol (s : string) : ∀ (skip : nat) (r : RegExp.t),
  (skip <= String.length s)%nat →
  parse_from skip (s +:+ "$") = Some r →
  ∃ r0, r = (r0 ++ [Eol])%list.
Proof.
  induction s as [| c s IH]; intros skip r Hskip H.
  - cbn [String.length] in Hskip. assert (skip = 0%nat) as -> by lia.
    rewrite append_nil in H. injection H as <-. by exists [].
  - rewrite append_cons in H. cbn [parse_from] in H.
    cbn [String.length] in Hskip.
    destruct skip as [| k]; [| apply (IH k r); [lia | done]].
    assert (∀ a r', parse_from 0 (s +:+ "$") = Some r' →
              ∃ r0, (a :: r' = r0 ++ [Eol])%list) as Hnext.
    { intros a r' Hr'. destruct (IH 0%nat r' ltac:(lia) Hr') as (r0 & ->).
      by exists (a :: r0). }
    destruct (Ascii.eqb c "^").
    { apply fmap_Some in H as (r' & Hr' & ->). by apply Hnext. }
    destruct (Ascii.eqb c "$").
    { apply fmap_Some in H as (r' & Hr' & ->). by apply Hnext. }
    destruct (Ascii.eqb c "\").
    { destruct s as [| d s'].
      - rewrite append_nil in H. done.
      - rewrite append_cons in H.
        destruct d as [[] [] [] [] [] [] [] []]; try discriminate H.
        apply fmap_Some in H as (r' & Hr' & ->).
        rewrite <- append_cons in Hr'.
        destruct (IH 1%nat r' ltac:(cbn; lia) Hr') as (r0 & ->).
        by exists (Chr "." :: r0). }
    destruct (Ascii.eqb c "[").
    { destruct (String.prefix label_class_tail (s +:+ "$")) eqn:Hpre; [| done].
      apply fmap_Some in H as (r' & Hr' & ->).
      pose proof (prefix_before_dollar label_class_tail s eq_refl Hpre) as Hlen.
      destruct (IH 12%nat r' Hlen Hr') as (r0 & ->).
      by exists (LabelPlus :: r0). }
    destruct (syntax_char c); [done |].
    apply fmap_Some in H as (r' & Hr' & ->). by apply Hnext.
Qed.

(** A regular expression of the fragment that ends in [$] does not match
    the text "*". *)
Lemma match_here_star (r0 : RegExp.t) : ∀ b : bool,
  Forall (fun a => a ≠ Chr "*") r0 →
  match_here (r0 ++ [Eol])%list b "*" = false.
Proof.
  induction r0 as [| a r0 IH]; intros b Hr0; [done |].
  apply Forall_cons in Hr0 as [Ha Hr0].
  destruct a as [| | c |]; cbn [app match_here]; try done.
  - rewrite (IH b Hr0). apply andb_false_r.
  - destruct (Ascii.eqb_spec c "*") as [-> | _]; [done | done].
Qed.

Lemma test_star (domain : string) :
  RegExp.test (regexPattern domain) "*" ≠ Some true.
Proof.
  unfold RegExp.test, parse, regexPattern.
  rewrite append_cons, append_nil. cbn [parse_from Ascii.eqb Bool.eqb].
  destruct (parse_from 0 (domainPattern domain +:+ "$")) as [r' |] eqn:Hr'; [| done].
  destruct (parse_ends_Eol _ 0%nat r' ltac:(lia) Hr') as (r0 & ->).
  pose proof (parse_no_star _ _ _ Hr') as Hns.
  apply Forall_app in Hns as [Hns _].
  cbn [fmap option_fmap option_map]. unfold exec.
  rewrite match_later_Bol, orb_false_r. cbn [match_here andb].
  by rewrite (match_here_star r0 true Hns).
Qed.

Lemma isWhitelisted_star (domains : list string) :
  isWhitelisted domains "*" ≠ Some true.
Proof.
  unfold isWhitelisted. induction domains as [| d ds IH]; [done |].
  cbn [some]. pose proof (test_star d) as Hd.
  destruct (RegExp.test (regexPattern d) "*") as [[] |]; done.
Qed.

(** X10. The allow-origin header is sent with the value "*" exactly when
    no origin list is configured (the variable unset or empty); with a list
    configured the header, if it is sent at all, carries the request's own
    [Origin] value, which is never "*". *)
Theorem wildcard_only_without_list
    (request : Request) (env : Env) (cors : Headers) :
  corsHeaders request env = Some cors →
  (In (allow_origin, "*") cors
   ↔ Env.CORS_ALLOW_ORIGIN env = None ∨ Env.CORS_ALLOW_ORIGIN env = Some "")
  ∧ (∀ v, In (allow_origin, v) cors →
          v = "*" ∨ Headers_get (headers request) "Origin" = Some v).
Proof.
  assert (∀ v, ¬ In (allow_origin, v) baseCorsHeaders) as Hbase.
  { intros v [[=] | [[=] | []]]. }
  assert (∀ v x, In (allow_origin, v)
                    (baseCorsHeaders ++ [("Access-Control-Allow-Origin", x)])%list
                 → v = x) as Hlast.
  { intros v x [[=] | [[=] | [[= <-] | []]]]. done. }
  assert (∀ x, In (allow_origin, x)
                  (baseCorsHeaders ++ [("Access-Control-Allow-Origin", x)])%list)
    as Hin.
  { intros x. right. right. by left. }
  unfold corsHeaders, supportedDomains.
  destruct (Env.CORS_ALLOW_ORIGIN env) as [[| c s] |]; cbn [truthy_string].
  - intros [= <-]. split; [split; [by right | done] |].
    intros v Hv. left. by apply Hlast in Hv.
  - set (domains := split "," (String c s)).
    destruct (Headers_get (headers request) "Origin") as [[| o origin] |];
      cbn [truthy_string].
    + intros [= <-]. split; [| by intros v Hv%Hbase].
      split; [by intros Hv%Hbase | by intros [? | ?]].
    + destruct (isWhitelisted domains (String o origin)) as [[] |] eqn:Hw; [| | done].
      * intros [= <-]. split.
        -- split; [| by intros [? | ?]].
           intros Hv%Hlast. rewrite <- Hv in Hw.
           by destruct (isWhitelisted_star domains).
        -- intros v Hv%Hlast. right. by rewrite Hv.
      * intros [= <-]. split; [| by intros v Hv%Hbase].
        split; [by intros Hv%Hbase | by intros [? | ?]].
    + intros [= <-]. split; [| by intros v Hv%Hbase].
      split; [by intros Hv%Hbase | by intros [? | ?]].
  - intros [= <-]. split; [split; [by left | done] |].
    intros v Hv. left. by apply Hlast in Hv.
Qed.

End AllowOrigin.


(** ** Allow-listed clients in sequence *)

Section Unlimited.

Variable upstream : Outbound → Result Response.

(** X11. Calls of allow-listed clients are never limited, however many
    there are: each one whose request object can be made has the outcome of
    the dispatcher, the upstream is contacted once per call, and the store
    is the same at the end, with no KV operation in between. *)
Theorem allow_listed_never_limited
    (env : Env) (calls : list (Z * Request)) (w : World) :
  Forall (fun call =>
            method (snd call) ≠ "OPTIONS"
            ∧ includes (whitelistedIps env) (clientIdentifier (snd call)) = true
            ∧ is_Some (corsHeaders (snd call) env)
            ∧ forwardable (snd call) env) calls →
  ∃ rs w' ext,
    serve upstream env calls w = Some (rs, w')
    ∧ kv w' = kv w
    ∧ log w' = (log w ++ ext)%list
    ∧ forallb (fun e => negb (is_kv_event e)) ext = true
    ∧ upstream_calls ext = length calls
    ∧ length rs = length calls
    ∧ ∀ (i : nat) call cors,
        calls !! i = Some call →
        corsHeaders (snd call) env = Some cors →
        rs !! i = dispatchOutcome upstream (snd call) env cors.
Proof.
  revert w. induction calls as [| call rest IH]; intros w Hcalls.
  - exists [], w, []. by rewrite app_nil_r.
  - apply Forall_cons in Hcalls as [(Hm & Hwl & [cors Hcors] & Hfw) Hrest].
    destruct call as [t request]. cbn [fst snd] in *.
    destruct (dispatchOutcome_forwardable upstream request env cors Hfw) as [o Ho].
    pose proof (fetch_whitelisted t upstream request env w cors Hcors Hwl) as Hf.
    apply String.eqb_neq in Hm. rewrite Hm, handleRequest_run, Ho in Hf.
    destruct (IH {| kv := kv w;
                    log := (log w ++ dispatchTrace upstream request env cors)%list |}
                 Hrest)
      as (rs & w' & ext & Hs & Hkv & Hlog & Hnokv & Hup & Hlen & Hans).
    exists (o :: rs), w', (dispatchTrace upstream request env cors ++ ext)%list.
    split; [cbn [serve]; by rewrite Hf, Hs |].
    split; [done |].
    split; [cbn [log] in Hlog; by rewrite Hlog, <- app_assoc |].
    split; [by rewrite forallb_app, Hnokv, dispatchTrace_no_kv |].
    split; [by rewrite upstream_calls_app, upstream_calls_dispatch, Hup |].
    split; [by cbn; rewrite Hlen |].
    intros [| i] c cs Hc Hcs.
    + cbn in Hc. injection Hc as <-. cbn [snd] in Hcs.
      rewrite Hcors in Hcs. injection Hcs as <-. cbn [snd]. by rewrite Ho.
    + transitivity (rs !! i); [reflexivity |]. by apply Hans.
Qed.

End Unlimited.
(** ** Two windows side by side *)

Section Boundary.

Variable upstream : Outbound → Result Response.

Lemma serve_app (env : Env) (a b : list (Z * Request)) : ∀ (w : World)
    (rs1 : list (Result Response)) (w1 : World)
    (rs2 : list (Result Response)) (w2 : World),
  serve upstream env a w = Some (rs1, w1) →
  serve upstream env b w1 = Some (rs2, w2) →
  serve upstream env (a ++ b) w = Some ((rs1 ++ rs2)%list, w2).
Proof.
  induction a as [| call a IH]; intros w rs1 w1 rs2 w2 Ha Hb.
  - injection Ha as <- <-. done.
  - apply serve_cons_inv in Ha as (r & w0 & rs' & Hf & Ha & ->).
    destruct call as [t request]. cbn [app serve fst snd] in *.
    by rewrite Hf, (IH w0 rs' w1 rs2 w2 Ha Hb).
Qed.

(** The answers of a run of one repeated call that are all dispatched. *)
Lemma all_dispatched (env : Env) (m : Z) (call : Z * Request) (cors : Headers)
    (o : Result Response) (n : nat) (rs : list (Result Response)) :
  corsHeaders (snd call) env = Some cors →
  dispatchOutcome upstream (snd call) env cors = Some o →
  Z.of_nat n <= m →
  length rs = n →
  (∀ (i : nat) c cs,
     replicate n call !! i = Some c →
     corsHeaders (snd c) env = Some cs →
     rs !! i = if 0 + Z.of_nat i <? m
               then dispatchOutcome upstream (snd c) env cs
               else Some (Returned
                            {| status := 429;
                               res_body := Some "Rate limit exceeded";
                               res_headers :=
                                 (cs ++ [("Content-Type",
                                          "text/plain;charset=UTF-8")])%list |})) →
  rs = replicate n o.
Proof.
  intros Hcors Ho Hn Hlen Hans. apply list_eq. intros i.
  destruct (decide (i < n)%nat) as [Hi | Hi].
  - rewrite (Hans i call cors); [| by apply lookup_replicate_2 | done].
    rewrite lookup_replicate_2 by done.
    destruct (Z.ltb_spec (0 + Z.of_nat i) m); [done | lia].
  - rewrite !lookup_ge_None_2; [done | | ].
    + rewrite length_replicate. lia.
    + lia.
Qed.


End Boundary.


(** ** The further statements at sample inputs *)
(** ** Requests that the dispatcher cannot forward *)

Section FailedDispatch.

Variable now : Z.
Variable upstream : Outbound → Result Response.

Lemma host_with_space_cluster (cluster : string) :
  host_with_space cluster = true →
  host_with_space (cluster +:+ ".helius-rpc.com") = true.
Proof.
  unfold host_with_space, none_of. intros [Hc Hs]%andb_prop.
  rewrite !all_chars_app, Hc. cbn [andb].
  apply negb_true_iff in Hs. rewrite Hs. done.
Qed.

(** The request object of the regular path cannot be made for a GET or HEAD
    request with a body, nor for the root path with a cluster value that
    holds a space. *)
Lemma proxyRequest_throws (request : Request) (env : Env) :
  get_or_head (method request) = true
  ∧ bodyText request ≠ ""
  ∧ stable_path (pathname (url request)) = true
  ∧ (pathname (url request) = "/" → cluster_name (CLUSTER request) = true)
  ∧ all_chars query_char (ToString_opt (Env.HELIUS_API_KEY env)) = true
  ∧ all_chars query_char (search (url request)) = true
  ∨ pathname (url request) = "/" ∧ host_with_space (CLUSTER request) = true →
  proxyRequest request env (bodyText request) = Some (Threw TypeError).
Proof.
  intros [(Hget & Hbody & Hpath & Hcluster & Hkey & Hsearch) | [Hroot Hsp]].
  - (* the URL is parsed as for a request without the body *)
    assert (known_method (method request) = true) as Hknown.
    { unfold get_or_head in Hget. unfold known_method. cbn [existsb].
      apply orb_prop in Hget as [-> | ->]; [done |]. by rewrite orb_true_r. }
    set (bare := {| method := "POST"; url := url request;
                    headers := headers request; body := None |}).
    pose proof (proxyRequest_built bare env eq_refl Hpath Hcluster Hkey Hsearch)
      as Hbuilt.
    unfold proxyRequest, Request_new in *.
    change (proxyUrl bare env) with (proxyUrl request env) in Hbuilt.
    destruct (URL_parse (proxyUrl request env)) as [[u | e] |]; [| done | done].
    cbn [proxyInit init_method init_body]. rewrite Hknown, Hget. cbn [negb andb].
    by destruct (bodyText request).
  - unfold proxyRequest, Request_new, proxyUrl. rewrite Hroot.
    cbn [String.eqb Ascii.eqb Bool.eqb].
    change ("/" +:+ ?x) with (String "/" x).
    by rewrite (URL_parse_space _ _ (host_with_space_cluster _ Hsp)).
Qed.

(** X13. A request that the limiter admits is counted before the
    dispatcher runs, also when the dispatcher cannot forward it: a GET or
    HEAD request with a body, or a request for the root path whose cluster
    value holds a space, has its count written and its body read, and then
    fails with a TypeError without a call of the upstream. *)
Theorem failed_dispatch_is_counted
    (request : Request) (env : Env) (w : World) (cors : Headers) (m c : Z) :
  corsHeaders request env = Some cors →
  method request ≠ "OPTIONS" →
  includes (whitelistedIps env) (clientIdentifier request) = false →
  RATE_LIMIT_MAX_REQUESTS env = Fin m →
  countOf (kv_lookup now (kv w) (windowKey now request env)) = Fin c →
  0 <= c < m →
  c < 2 ^ 53 →
  isUpgrade request = false →
  get_or_head (method request) = true
  ∧ bodyText request ≠ ""
  ∧ stable_path (pathname (url request)) = true
  ∧ (pathname (url request) = "/" → cluster_name (CLUSTER request) = true)
  ∧ all_chars query_char (ToString_opt (Env.HELIUS_API_KEY env)) = true
  ∧ all_chars query_char (search (url request)) = true
  ∨ pathname (url request) = "/" ∧ host_with_space (CLUSTER request) = true →
  let key := windowKey now request env in
  fetch now upstream request env w
  = Some (Threw TypeError,
          {| kv := <[key := (pretty (c + 1), now + 60 * 1000)]> (kv w);
             log := (log w ++ [KVGet key; KVPut key (pretty (c + 1)) 60;
                               ReadText])%list |})
  ∧ ∀ later, later < now + 60 * 1000 →
      countOf (kv_lookup later (<[key := (pretty (c + 1), now + 60 * 1000)]> (kv w))
                         key)
      = Fin (c + 1).
Proof.
  intros Hcors Hm Hwl Hmax Hc Hrange Hsafe Hu Hcase key.
  rewrite (fetch_limited now upstream request env w cors Hcors Hm Hwl).
  cbv zeta. fold key in Hc |- *. rewrite Hc, Hmax. cbn [number_ge].
  destruct (Z.leb_spec m c); [lia |].
  assert (number_add (Fin c) 1 = Fin (c + 1)) as ->.
  { cbn [number_add]. apply round_double_upto. lia. }
  rewrite Number_toString_upto by lia.
  assert (outbound request env = Some (Threw TypeError)) as Hout.
  { unfold outbound. rewrite Hu. by apply proxyRequest_throws. }
  rewrite (handleRequest_throw upstream request env cors _ TypeError Hout), Hu.
  cbn [kv log]. rewrite <- app_assoc. split; [done |].
  intros later Hlater. unfold kv_lookup. rewrite lookup_insert_eq.
  destruct (Z.ltb_spec later (now + 60 * 1000)); [| lia].
  rewrite countOf_pretty. apply round_double_upto. lia.
Qed.

End FailedDispatch.

(** ** The further statements at sample inputs *)

Section FurtherWitnesses.

Lemma other_clients_leave_counter_witness :
  ∃ rs w',
    serve sample_upstream (env_with None (Some "2") None None) other_calls
          empty_world = Some (rs, w')
    ∧ kv w' !! windowKey now0 client (env_with None (Some "2") None None) = None.
Proof.
  destruct (serve sample_upstream (env_with None (Some "2") None None)
              other_calls empty_world) as [[rs w'] |] eqn:Hs;
    [| by vm_compute in Hs].
  exists rs, w'. split; [reflexivity |].
  refine (proj1 (other_clients_leave_counter sample_upstream
                   (env_with None (Some "2") None None) other_calls empty_world
                   rs w' now0 client _ Hs)).
  repeat constructor; discriminate.
Defined.

Lemma new_window_starts_at_one_witness :
  ∃ rs w1,
    serve sample_upstream (env_with None (Some "2") None None) earlier_calls
          empty_world = Some (rs, w1)
    ∧ fetch now0 sample_upstream client (env_with None (Some "2") None None) w1
      = handleRequest sample_upstream client (env_with None (Some "2") None None)
          open_cors
          {| kv := <["1.2.3.4:1700000000" := ("1", 1700000060123)]> (kv w1);
             log := (log w1 ++ [KVGet "1.2.3.4:1700000000";
                                KVPut "1.2.3.4:1700000000" "1" 60])%list |}.
Proof.
  destruct (serve sample_upstream (env_with None (Some "2") None None)
              earlier_calls empty_world) as [[rs w1] |] eqn:Hs;
    [| by vm_compute in Hs].
  exists rs, w1. split; [reflexivity |].
  refine (new_window_starts_at_one sample_upstream
            (env_with None (Some "2") None None) 2 1 earlier_calls empty_world
            rs w1 now0 client open_cors eq_refl _ eq_refl _ _ _ Hs eq_refl _
            eq_refl eq_refl).
  - lia.
  - reflexivity.
  - unfold now0. lia.
  - repeat constructor; cbn [fst]; try lia; discriminate.
  - discriminate.
Defined.

Lemma store_holds_counts_witness :
  ∃ rs w',
    serve sample_upstream (env_with None (Some "2") None None) burst_calls
          empty_world = Some (rs, w')
    ∧ counts_only (kv w').
Proof.
  destruct (serve sample_upstream (env_with None (Some "2") None None)
              burst_calls empty_world) as [[rs w'] |] eqn:Hs;
    [| by vm_compute in Hs].
  exists rs, w'. split; [reflexivity |].
  refine (proj1 (store_holds_counts sample_upstream
                   (env_with None (Some "2") None None) burst_calls empty_world
                   rs w' _ Hs)).
  intros k v e Hl. discriminate Hl.
Defined.

Lemma request_effects_witness :
  ∃ o w' ext,
    fetch now0 sample_upstream client (env_with None (Some "2") None None)
          empty_world = Some (o, w')
    ∧ log w' = ext
    ∧ (upstream_calls ext <= 1)%nat.
Proof.
  destruct (fetch now0 sample_upstream client (env_with None (Some "2") None None)
              empty_world) as [[o w'] |] eqn:Hf; [| by vm_compute in Hf].
  destruct (request_effects sample_upstream now0 client
              (env_with None (Some "2") None None) empty_world o w' Hf)
    as (ext & v & out & Hlog & _ & Hcalls & _).
  exists o, w', ext. split; [reflexivity |]. split; [exact Hlog | exact Hcalls].
Defined.

Lemma settings_read_leading_integer_witness :
  RATE_LIMIT_TIME_WINDOW (env_with None None (Some "60s") None) = Fin 60
  ∧ RATE_LIMIT_MAX_REQUESTS (env_with None (Some "100") None None) = Fin 100.
Proof.
  split.
  - refine (proj1 (proj2 (settings_read_leading_integer
                            (env_with None None (Some "60s") None) 60 "s"
                            _ _ eq_refl)) eq_refl); lia.
  - refine (proj1 (settings_read_leading_integer
                     (env_with None (Some "100") None None) 100 ""
                     _ _ eq_refl) eq_refl); lia.
Defined.

Lemma proxied_query_keeps_inbound_witness :
  ∃ o w' out,
    handleRequest sample_upstream client (env_with None None None None)
                  open_cors empty_world = Some (o, w')
    ∧ log w' = [ReadText; Fetch out]
    ∧ href_search (out_url out) = "?api-key=KEY&cluster=devnet".
Proof.
  exact (proxied_query_keeps_inbound sample_upstream client
           (env_with None None None None) open_cors empty_world
           eq_refl eq_refl eq_refl (fun _ => eq_refl) eq_refl eq_refl).
Defined.

Lemma cluster_value_chooses_host_witness :
  ∃ out,
    In (Fetch out) (dispatchTrace sample_upstream foreign_cluster_request
                      (env_with None None None None) open_cors)
    ∧ href_host (out_url out) = "evil.example"
    ∧ href_pathname (out_url out) = "/.helius-rpc.com/".
Proof.
  destruct (cluster_value_chooses_host sample_upstream foreign_cluster_request
              (env_with None None None None) open_cors "evil.example" ""
              eq_refl eq_refl eq_refl eq_refl eq_refl (or_intror eq_refl))
    as [Hall Hex].
  destruct (Hex eq_refl) as [out Hin].
  exists out. split; [exact Hin |].
  destruct (Hall out Hin) as (Hhost & Hpath & _).
  split; [exact Hhost | exact Hpath].
Defined.

Lemma wildcard_only_without_list_witness :
  In (allow_origin, "*") open_cors
  ∧ ¬ In (allow_origin, "*")
        (baseCorsHeaders
         ++ [("Access-Control-Allow-Origin", "https://app.example.com")])%list.
Proof.
  split.
  - refine (proj2 (proj1 (wildcard_only_without_list client
                            (env_with None None None None) open_cors eq_refl))
                  (or_introl eq_refl)).
  - intros Hin.
    destruct (proj1 (proj1 (wildcard_only_without_list client
                       (env_with (Some "https://*.example.com") None None None)
                       _ eq_refl)) Hin) as [H | H]; discriminate H.
Defined.

Lemma allow_listed_never_limited_witness :
  ∃ rs w',
    serve sample_upstream listed_env listed_calls empty_world = Some (rs, w')
    ∧ kv w' = ∅
    ∧ length rs = 3%nat.
Proof.
  destruct (allow_listed_never_limited sample_upstream listed_env listed_calls
              empty_world)
    as (rs & w' & ext & Hs & Hkv & _ & _ & _ & Hlen & _).
  - repeat constructor; try discriminate; by eexists.
  - exists rs, w'. split; [exact Hs |]. split; [exact Hkv | exact Hlen].
Defined.

Lemma failed_dispatch_is_counted_witness :
  fetch now0 sample_upstream get_with_body (env_with None (Some "2") None None)
        empty_world
  = Some (Threw TypeError,
          {| kv := <["1.2.3.4:1700000000" := ("1", 1700000060123)]> ∅;
             log := [KVGet "1.2.3.4:1700000000";
                     KVPut "1.2.3.4:1700000000" "1" 60; ReadText] |})
  ∧ fetch now0 sample_upstream spaced_cluster_request
          (env_with None (Some "2") None None) empty_world
    = Some (Threw TypeError,
            {| kv := <["1.2.3.4:1700000000" := ("1", 1700000060123)]> ∅;
               log := [KVGet "1.2.3.4:1700000000";
                       KVPut "1.2.3.4:1700000000" "1" 60; ReadText] |}).
Proof.
  split.
  - refine (proj1 (failed_dispatch_is_counted now0 sample_upstream get_with_body
                     (env_with None (Some "2") None None) empty_world open_cors
                     2 0 eq_refl _ eq_refl eq_refl eq_refl _ _ eq_refl
                     (or_introl _))).
    + discriminate.
    + lia.
    + lia.
    + repeat split; try reflexivity. discriminate.
  - refine (proj1 (failed_dispatch_is_counted now0 sample_upstream
                     spaced_cluster_request
                     (env_with None (Some "2") None None) empty_world open_cors
                     2 0 eq_refl _ eq_refl eq_refl eq_refl _ _ eq_refl
                     (or_intror (conj eq_refl eq_refl)))).
    + discriminate.
    + lia.
    + lia.
Defined.

End FurtherWitnesses.
